(** * Sign-to-VOX flow: a shallow embedding of [sign-to-vox-flow.ts]

    The flow builds a sparse voxel map of a sign (a framed wall sign or a
    hanging sign with a backplate), paints an icon and a rasterised text on
    it, adds an anchor voxel and hands the map to the VOX writer.

    Numbers.  The fields of the input are integers in every call the user
    interface makes; they are modelled as [Z], and the arithmetic of the flow
    (sums, products, [Math.floor] of a half) is exact on them.  The only
    fractional quantities of the source are the half-cell shifts of the two
    corner tests; they are compared after scaling by 4 (lemma
    [quarter_scaling] relates the scaled test to the rational one).  The
    coercion [n|0] of [addVoxel] is the 32-bit wrap-around [toInt32]. *)

From Stdlib Require Import String ZArith List Permutation Bool Lia QArith Lqa.
From Stdlib Require DecimalString.
Import ListNotations.
(* [length] is the length of lists throughout. *)
Import Corelib.Init.Datatypes.
Local Open Scope Z_scope.

Set Implicit Arguments.

(** ** JavaScript primitives used by the flow *)

(** [n|0]: the signed 32-bit integer congruent to [n]. *)
Definition toInt32 (n : Z) : Z := (n + 2 ^ 31) mod 2 ^ 32 - 2 ^ 31.

(** A JavaScript string: its sequence of UTF-16 code units. *)
Definition jsstring := list N.

(** WhiteSpace and LineTerminator code units of ECMAScript, the ones
    [String.prototype.trim] strips. *)
Definition isWhiteSpace (c : N) : bool :=
  let inb (a b : N) := (a <=? c)%N && (c <=? b)%N in
  inb 9%N 13%N || (c =? 32)%N || (c =? 160)%N || (c =? 5760)%N
  || inb 8192%N 8202%N || (c =? 8232)%N || (c =? 8233)%N || (c =? 8239)%N
  || (c =? 8287)%N || (c =? 12288)%N || (c =? 65279)%N.

Fixpoint trimStart (s : jsstring) : jsstring :=
  match s with
  | [] => []
  | c :: s' => if isWhiteSpace c then trimStart s' else s
  end.

Definition trimEnd (s : jsstring) : jsstring := rev (trimStart (rev s)).

Definition trim (s : jsstring) : jsstring := trimEnd (trimStart s).

(** A boolean array.  A hole left by a write past the end reads as
    [undefined]; the flow only tests elements for truthiness, so a hole is
    kept as [false]. *)
Definition jsarray := list bool.

(** [a[i]] in a truthiness test: out of range reads are falsy. *)
Definition js_get (a : jsarray) (i : Z) : bool :=
  if i <? 0 then false else nth (Z.to_nat i) a false.

Fixpoint set_nth (n : nat) (a : jsarray) : jsarray :=
  match n, a with
  | O, [] => [true]
  | O, _ :: a' => true :: a'
  | S n', [] => false :: set_nth n' []
  | S n', b :: a' => b :: set_nth n' a'
  end.

(** [a[i] = true]: an index below 0 (or beyond the largest array index) names
    an ordinary property and leaves the elements alone; an index past the end
    extends the array. *)
Definition js_set_true (a : jsarray) (i : Z) : jsarray :=
  if (i <? 0) || (2 ^ 32 - 1 <=? i) then a else set_nth (Z.to_nat i) a.

(** [Array(n).fill(false)]: a length that is not an unsigned 32-bit integer
    raises a RangeError. *)
Definition Array_fill_false (n : Z) : option jsarray :=
  if (0 <=? n) && (n <? 2 ^ 32) then Some (repeat false (Z.to_nat n)) else None.

(** The values [lo, lo+1, ...] taken by the counter of
    [for (let i = lo; i < hi; i++)]. *)
Fixpoint countFrom (n : nat) (lo : Z) : list Z :=
  match n with
  | O => []
  | S n' => lo :: countFrom n' (lo + 1)
  end.

Definition range (lo hi : Z) : list Z := countFrom (Z.to_nat (hi - lo)) lo.

(** ** Data model *)

Inductive SignType := standard | hanging.
Inductive IconPosition := icon_left | icon_right.

(** [PixelDataSchema] *)
Record PixelData := {
  px_pixels : jsarray;
  px_width : Z;
  px_height : Z;
  px_offsetY : option Z
}.

(** [SignToVoxInputSchema] *)
Record SignToVoxInput := {
  signType : SignType;
  width : Z;
  height : Z;
  frame : bool;
  frameWidth : Z;
  hangingWidth : Z;
  hangingIconPosition : IconPosition;
  hangingSignThickness : Z;
  hangingSignIconOffsetX : Z;
  hangingSignTextOffsetX : Z;
  icon : option PixelData;
  text : jsstring;
  signIconScale : Z;
  signIconOffsetY : Z;
  textOffsetY : Z;
  signWithIcon : bool
}.

Record VoxSize := { size_x : Z; size_y : Z; size_z : Z }.

Record Xyzi := { vx : Z; vy : Z; vz : Z; vi : Z }.

Record PaletteColor := { r : Z; g : Z; b : Z; a : Z }.

Record XyziChunk := { numVoxels : Z; values : list Xyzi }.

(** The object handed to the VOX writer. *)
Record VoxObject := {
  size : VoxSize;
  xyzi : XyziChunk;
  rgba : list PaletteColor
}.

(** [SignToVoxOutput] *)
Record SignToVoxOutput := {
  schematicData : string;
  out_width : Z;
  out_height : Z;
  out_depth : Z;
  isVox : bool;
  voxData : jsstring;
  voxSize : VoxSize;
  totalVoxels : Z
}.

Inductive ItemType := icon_item | text_item.

(** An element of [contentItems]. *)
Record ContentItem := {
  item_type : ItemType;
  item_width : Z;
  item_height : Z;
  item_pixels : jsarray;
  item_offsetX : Z;
  item_offsetY : Z
}.

(** A line of the text rasteriser's result. *)
Record TextLine := {
  line_width : Z;
  line_height : Z;
  line_pixels : jsarray
}.

Record RasterizedText := { lines : list TextLine; totalHeight : Z }.

(** ** The voxel map

    [voxelMap] is a JavaScript [Map] keyed by the string ["x,y,z"] of three
    32-bit integers; the key is kept as the triple it prints (printing and
    [split(',').map(Number)] are inverse on such triples).  A [Map] lists its
    entries in the order of first insertion and [set] on a present key
    replaces the value in place. *)

Definition Key := (Z * Z * Z)%type.

Definition key_eqb (k k' : Key) : bool :=
  let '(x, y, z) := k in
  let '(x', y', z') := k' in
  (x =? x') && (y =? y') && (z =? z').

Definition VoxelMap := list (Key * Z).

Fixpoint map_set (k : Key) (v : Z) (m : VoxelMap) : VoxelMap :=
  match m with
  | [] => [(k, v)]
  | (k', v') :: m' =>
      if key_eqb k k' then (k', v) :: m' else (k', v') :: map_set k v m'
  end.

Fixpoint map_get (k : Key) (m : VoxelMap) : option Z :=
  match m with
  | [] => None
  | (k', v') :: m' => if key_eqb k k' then Some v' else map_get k m'
  end.

(** A call [addVoxel(px, py, pz, colorIndex)], with the arguments as passed. *)
Definition Write := (Z * Z * Z * Z)%type.

Definition write_key (w : Write) : Key :=
  let '(px, py, pz, _) := w in (toInt32 px, toInt32 py, toInt32 pz).

Definition write_color (w : Write) : Z := snd w.

(** The state of one run: the map, and the log of the calls of [addVoxel]
    (kept for the statements about the order of the writes). *)
Record State := { voxelMap : VoxelMap; writes : list Write }.

Definition init_state : State := {| voxelMap := []; writes := [] |}.

(** ** State and exception monad of the flow *)

Definition M (A : Type) : Type := State -> option (A * State).

Definition ret {A} (x : A) : M A := fun s => Some (x, s).

Definition bind {A B} (c : M A) (k : A -> M B) : M B :=
  fun s => match c s with
           | Some (x, s') => k x s'
           | None => None
           end.

(** A thrown exception or a rejected promise: no result, no state. *)
Definition lift {A} (o : option A) : M A :=
  fun s => match o with Some x => Some (x, s) | None => None end.

Definition get_voxelMap : M VoxelMap := fun s => Some (voxelMap s, s).

Declare Scope flow_scope.
Delimit Scope flow_scope with flow.
Notation "x <- c ;; k" := (bind c (fun x => k))
  (at level 61, c at next level, right associativity) : flow_scope.
Notation "c ;; k" := (bind c (fun _ => k))
  (at level 61, right associativity) : flow_scope.
Local Open Scope flow_scope.

Definition when (c : bool) (m : M unit) : M unit := if c then m else ret tt.

Fixpoint forEach {A} (l : list A) (body : A -> M unit) : M unit :=
  match l with
  | [] => ret tt
  | x :: l' => body x ;; forEach l' body
  end.

(** [for (let i = lo; i < hi; i++) body] *)
Definition for_lt (lo hi : Z) (body : Z -> M unit) : M unit :=
  forEach (range lo hi) body.

(** [addVoxel]: overwrite the entry at the coerced position. *)
Definition addVoxel (px py pz colorIndex : Z) : M unit :=
  fun s => Some (tt, {| voxelMap := map_set (toInt32 px, toInt32 py, toInt32 pz)
                                            colorIndex (voxelMap s);
                        writes := writes s ++ [(px, py, pz, colorIndex)] |}).

(** ** Background and frame generation *)

Definition is_standard (t : SignType) : bool :=
  match t with standard => true | hanging => false end.

Definition is_hanging (t : SignType) : bool :=
  match t with hanging => true | standard => false end.

Definition is_right (p : IconPosition) : bool :=
  match p with icon_right => true | icon_left => false end.

Definition signWidth (params : SignToVoxInput) : Z :=
  if is_hanging (signType params) then hangingWidth params else width params.

Definition signHeight (params : SignToVoxInput) : Z :=
  if is_hanging (signType params) then 16 else height params.

Definition modelDepth : Z := 32.

(** Four times [(dx + 0.5)^2 + (dy + 0.5)^2]. *)
Definition sq4 (dx dy : Z) : Z := (2 * dx + 1) ^ 2 + (2 * dy + 1) ^ 2.

(** [checkCorner(cx, cy, radius)] at the cell [(x, y)] of the loop. *)
Definition checkCorner (x y cx cy radius : Z) : bool :=
  ((Z.abs (x - cx) <? radius) && (Z.abs (y - cy) <? radius))
  && (4 * radius ^ 2 <? sq4 (x - cx) (y - cy)).

(** The value of [isFrame] when the cell [(x, y)] reaches the test that
    guards [addVoxel]. *)
Definition isFrame (params : SignToVoxInput) (x y : Z) : bool :=
  let signWidth := signWidth params in
  let signHeight := signHeight params in
  let cornerRadius := frameWidth params * 2 in
  let isFrame := false in
  let isFrame :=
    if (y <? frameWidth params) || (signHeight - frameWidth params <=? y)
    then true else isFrame in
  let isFrame :=
    if (x <? frameWidth params) || (signWidth - frameWidth params <=? x)
    then true else isFrame in
  let isFrame :=
    if checkCorner x y cornerRadius cornerRadius cornerRadius
    then false else isFrame in
  let isFrame :=
    if checkCorner x y (signWidth - 1 - cornerRadius) cornerRadius cornerRadius
    then false else isFrame in
  let isFrame :=
    if checkCorner x y cornerRadius (signHeight - 1 - cornerRadius) cornerRadius
    then false else isFrame in
  let isFrame :=
    if checkCorner x y (signWidth - 1 - cornerRadius)
                   (signHeight - 1 - cornerRadius) cornerRadius
    then false else isFrame in
  isFrame.

(** [isInside] of the backplate loop, with [cornerRadius = 4]. *)
Definition isInside (signWidth signHeight x y : Z) : bool :=
  let cornerRadius := 4 in
  ((cornerRadius <=? x) && (x <? signWidth - cornerRadius))
  || ((cornerRadius <=? y) && (y <? signHeight - cornerRadius))
  || (sq4 (x - cornerRadius) (y - cornerRadius) <=? 4 * cornerRadius ^ 2)
  || (sq4 (x - (signWidth - cornerRadius)) (y - cornerRadius)
      <=? 4 * cornerRadius ^ 2)
  || (sq4 (x - cornerRadius) (y - (signHeight - cornerRadius))
      <=? 4 * cornerRadius ^ 2)
  || (sq4 (x - (signWidth - cornerRadius)) (y - (signHeight - cornerRadius))
      <=? 4 * cornerRadius ^ 2).

Definition zStart : Z := 16.

Definition shape (params : SignToVoxInput) : M unit :=
  if is_standard (signType params) && frame params then
    for_lt 0 (signHeight params) (fun y =>
      for_lt 0 (signWidth params) (fun x =>
        when (isFrame params x y) (addVoxel x y 15 2)))
  else if is_hanging (signType params) then
    let thickness := hangingSignThickness params in
    for_lt 0 thickness (fun z =>
      for_lt 0 (signHeight params) (fun y =>
        for_lt 0 (signWidth params) (fun x =>
          when (isInside (signWidth params) (signHeight params) x y)
               (addVoxel x y (zStart + z) 1))))
  else ret tt.

(** ** Content layout *)

Definition hasIcon (params : SignToVoxInput) : bool :=
  match icon params with
  | Some ic => (0 <? length (px_pixels ic))%nat && signWithIcon params
  | None => false
  end.

Definition pad (params : SignToVoxInput) : Z :=
  if is_standard (signType params) && frame params then frameWidth params
  else if is_hanging (signType params) then 2 else 0.

Definition availableWidth (params : SignToVoxInput) : Z :=
  signWidth params - pad params * 2.

Definition availableHeight (params : SignToVoxInput) : Z :=
  signHeight params - pad params * 2.

(** The icon pushed on [contentItems]: the icon's own [offsetY] is
    overridden by the one computed from the sign type. *)
Definition iconItems (params : SignToVoxInput) : list ContentItem :=
  match icon params with
  | Some ic =>
      if hasIcon params then
        let offsetX := if is_hanging (signType params)
                       then hangingSignIconOffsetX params else 0 in
        let offsetY := if is_standard (signType params)
                       then signIconOffsetY params else 0 in
        [ {| item_type := icon_item; item_width := px_width ic;
             item_height := px_height ic; item_pixels := px_pixels ic;
             item_offsetX := offsetX; item_offsetY := offsetY |} ]
      else []
  | None => []
  end.

(** One line copied into [combinedPixels] at row [currentY]. *)
Definition drawLine (availableWidth currentY : Z) (line : TextLine)
    (combinedPixels : jsarray) : jsarray :=
  let xOffset := (availableWidth - line_width line) / 2 in
  fold_left (fun arr y =>
    fold_left (fun arr x =>
      if js_get (line_pixels line) (y * line_width line + x)
      then js_set_true arr ((currentY + y) * availableWidth + (xOffset + x))
      else arr)
      (range 0 (line_width line)) arr)
    (range 0 (line_height line)) combinedPixels.

Fixpoint drawLines (availableWidth : Z) (ls : list TextLine) (currentY : Z)
    (combinedPixels : jsarray) : jsarray :=
  match ls with
  | [] => combinedPixels
  | line :: rest =>
      drawLines availableWidth rest (currentY + line_height line + 1)
                (drawLine availableWidth currentY line combinedPixels)
  end.

(** The test [params.text && params.text.trim().length > 0]. *)
Definition hasText (params : SignToVoxInput) : bool :=
  negb (length (text params) =? 0)%nat && (0 <? length (trim (text params)))%nat.

Definition spacing : Z := 4.

Definition voxelDepth : Z := 15.

(** [params.icon!.width], read only where [hasIcon] holds. *)
Definition iconWidth (params : SignToVoxInput) : Z :=
  match icon params with Some ic => px_width ic | None => 0 end.

(** [itemWidth], as computed both in the [reduce] and in the placement loop. *)
Definition itemWidth (params : SignToVoxInput) (item : ContentItem) : Z :=
  match item_type item with
  | text_item =>
      if hasIcon params && is_hanging (signType params)
      then item_width item - iconWidth params - spacing
      else item_width item
  | icon_item => item_width item
  end.

Definition totalContentWidth (params : SignToVoxInput)
    (contentItems : list ContentItem) : Z :=
  fold_left (fun sum item => sum + itemWidth params item) contentItems 0
  + (if (1 <? length contentItems)%nat then spacing else 0).

(** The two pixel loops of one content item. *)
Definition paintItem (params : SignToVoxInput) (item : ContentItem)
    (currentX : Z) : M unit :=
  let itemBaseY := pad params + (availableHeight params - item_height item) / 2 in
  let finalItemY := itemBaseY + item_offsetY item in
  let colorIndex := if is_standard (signType params) then 2 else 3 in
  let finalItemX := currentX + item_offsetX item in
  for_lt 0 (item_height item) (fun y =>
    for_lt 0 (item_width item) (fun x =>
      when (js_get (item_pixels item) (y * item_width item + x))
           (addVoxel (x + finalItemX)
                     (signHeight params - 1 - (y + finalItemY))
                     voxelDepth colorIndex))).

(** [for (const item of contentItems)], threading [currentX]; the result is
    the cursor after the last item. *)
Fixpoint placeItems (params : SignToVoxInput) (contentItems : list ContentItem)
    (currentX : Z) : M Z :=
  match contentItems with
  | [] => ret currentX
  | item :: rest =>
      paintItem params item currentX ;;
      placeItems params rest (currentX + (itemWidth params item + spacing))
  end.

Definition startX (params : SignToVoxInput) (contentItems : list ContentItem) : Z :=
  pad params
  + (availableWidth params - totalContentWidth params contentItems) / 2.

(** ** Palette and encoder *)

Fixpoint list_set {A} (n : nat) (x : A) (l : list A) : list A :=
  match n, l with
  | _, [] => []
  | O, _ :: l' => x :: l'
  | S n', y :: l' => y :: list_set n' x l'
  end.

Definition palette : list PaletteColor :=
  let p := repeat {| r := 0; g := 0; b := 0; a := 0 |} 256 in
  let p := list_set 0 {| r := 0; g := 0; b := 0; a := 0 |} p in
  let p := list_set 1 {| r := 10; g := 10; b := 10; a := 255 |} p in
  let p := list_set 2 {| r := 200; g := 164; b := 100; a := 255 |} p in
  let p := list_set 3 {| r := 220; g := 220; b := 220; a := 255 |} p in
  p.

(** [xyziValues]: one record per entry of the map, in the map's order. *)
Definition xyziValues (m : VoxelMap) : list Xyzi :=
  map (fun e => let '((x, y, z), value) := e in
                {| vx := x; vy := y; vz := z; vi := value |}) m.

Definition buildVoxObject (params : SignToVoxInput) (m : VoxelMap) : VoxObject :=
  let modelWidth := signWidth params in
  let modelHeight := signHeight params in
  let voxSize := {| size_x := modelWidth; size_y := modelDepth;
                    size_z := modelHeight |} in
  {| size := voxSize;
     xyzi := {| numVoxels := Z.of_nat (length (xyziValues m));
                values := map (fun v => {| vx := vx v; vy := vz v;
                                           vz := vy v; vi := vi v |})
                              (xyziValues m) |};
     rgba := palette |}.

(** ** The flow

    The text rasteriser, the VOX writer and the string primitives of the
    platform are not part of the flow; it is parameterised by them.  A
    rejected rasteriser promise is the result [None]. *)

Record Platform := {
  rasterizePixelText : jsstring -> Z -> option RasterizedText;
  toUpperCase : jsstring -> jsstring;
  writeVox : VoxObject -> list Z;
  toBase64 : list Z -> jsstring;
  numberToString : Z -> string
}.

Section Flow.

Variable pf : Platform.

Definition createSchematicData (name : string) (width height : Z)
    (depth : option Z) : string :=
  let depthInfo :=
    match depth with
    | Some d => if d =? 0 then EmptyString
                else String.append "x" (numberToString pf d)
    | None => EmptyString
    end in
  String.append "Schematic: "
   (String.append name
    (String.append " ("
     (String.append (numberToString pf width)
      (String.append "x"
       (String.append (numberToString pf height)
        (String.append depthInfo ")")))))).

(** The text item pushed on [contentItems]; [None] when the rasteriser
    rejects or the allocation of [combinedPixels] throws. *)
Definition textItems (params : SignToVoxInput) : option (list ContentItem) :=
  if hasText params then
    match rasterizePixelText pf (toUpperCase pf (text params))
                             (availableWidth params) with
    | None => None
    | Some rt =>
        match Array_fill_false (availableWidth params * totalHeight rt) with
        | None => None
        | Some combinedPixels =>
            let combinedPixels :=
              drawLines (availableWidth params) (lines rt) 0 combinedPixels in
            let offsetX := if is_hanging (signType params)
                           then hangingSignTextOffsetX params else 0 in
            let offsetY := if is_standard (signType params)
                           then textOffsetY params else 0 in
            Some [ {| item_type := text_item;
                      item_width := availableWidth params;
                      item_height := totalHeight rt;
                      item_pixels := combinedPixels;
                      item_offsetX := offsetX; item_offsetY := offsetY |} ]
        end
    end
  else Some [].

(** [contentItems] when the placement loop starts. *)
Definition contentItems (params : SignToVoxInput) : option (list ContentItem) :=
  match textItems params with
  | None => None
  | Some t =>
      let items := iconItems params ++ t in
      Some (if is_hanging (signType params)
               && is_right (hangingIconPosition params)
            then rev items else items)
  end.

(** [SignToVoxInputSchema.parse]: the bounds of the schema; a violation
    throws. *)
Definition parse (input : SignToVoxInput) : option SignToVoxInput :=
  if (16 <=? width input) && (16 <=? height input)
     && (1 <=? frameWidth input) && (1 <=? hangingSignThickness input)
  then Some input else None.

(** The end of the flow, from the final map [m]: the object written and the
    value returned. *)
Definition assemble (params : SignToVoxInput) (m : VoxelMap)
  : VoxObject * SignToVoxOutput :=
  let modelWidth := signWidth params in
  let modelHeight := signHeight params in
  let voxObject := buildVoxObject params m in
  (voxObject,
   {| schematicData := createSchematicData "VOX Sign" modelWidth modelHeight
                                           (Some modelDepth);
      out_width := modelWidth;
      out_height := modelHeight;
      out_depth := modelDepth;
      isVox := true;
      voxData := toBase64 pf (writeVox pf voxObject);
      voxSize := size voxObject;
      totalVoxels := Z.of_nat (length (xyziValues m)) - 1 |}).

(** The body of [generateSignToVoxFlow] after [parse]; the local [voxObject]
    is returned next to the result. *)
Definition flow (params : SignToVoxInput) : M (VoxObject * SignToVoxOutput) :=
  shape params ;;
  items <- lift (contentItems params) ;;
  _ <- placeItems params items (startX params items) ;;
  addVoxel 0 0 0 2 ;;
  m <- get_voxelMap ;;
  ret (assemble params m).

(** A complete run from the empty map. *)
Definition run (input : SignToVoxInput)
  : option (VoxObject * SignToVoxOutput * State) :=
  match parse input with
  | None => None
  | Some params => flow params init_state
  end.

Definition generateSignToVoxFlow (input : SignToVoxInput)
  : option SignToVoxOutput :=
  match run input with
  | Some (_, out, _) => Some out
  | None => None
  end.

End Flow.

(** * The sign form

    The parts of [vox-generator-sign.tsx] that compute: the content box
    of the form and the alpha threshold of [imageToPixels].
    [handleGenerateSign] passes the state of the form as the fields of the
    input; the quantities of the form are stated on those fields. *)

(** [contentWidth] of [handleGenerateSign]. *)
Definition contentWidth (input : SignToVoxInput) : Z :=
  let currentSignWidth :=
    if is_hanging (signType input) then hangingWidth input else width input in
  let currentFrameWidth :=
    if is_hanging (signType input) then 2
    else if frame input then frameWidth input else 0 in
  currentSignWidth - currentFrameWidth * 2.

(** [currentContentHeight] of the form. *)
Definition currentContentHeight (input : SignToVoxInput) : Z :=
  (if is_standard (signType input) then height input else 16)
  - (if is_standard (signType input) && frame input
     then frameWidth input * 2 else 4).

(** [data[i] > 128]; a read past the end is [undefined], and the comparison
    is false. *)
Definition above_128 (data : list Z) (i : Z) : bool :=
  match nth_error data (Z.to_nat i) with
  | Some v => 128 <? v
  | None => false
  end.

(** [for (let i = 0; i < data.length; i += 4) pixels.push(data[i+3] > 128)],
    from the counter [i]; the loop makes at most [fuel] turns. *)
Fixpoint pushAlpha (fuel : nat) (i : Z) (data : list Z) (pixels : jsarray)
  : jsarray :=
  match fuel with
  | O => pixels
  | S fuel' =>
      if i <? Z.of_nat (length data)
      then pushAlpha fuel' (i + 4) data (pixels ++ [above_128 data (i + 3)])
      else pixels
  end.

(** The pixels of an image data array; its length bounds the turns. *)
Definition alphaPixels (data : list Z) : jsarray :=
  pushAlpha (length data) 0 data [].

(** * Definitions for the statements *)

(** ** Logs of writes *)

Definition key_eq_dec (k k' : Key) : {k = k'} + {k <> k'}.
Proof.
  repeat decide equality.
Defined.

(** The map after a sequence of calls of [addVoxel]. *)
Fixpoint apply_writes (ws : list Write) (m : VoxelMap) : VoxelMap :=
  match ws with
  | [] => m
  | w :: ws' => apply_writes ws' (map_set (write_key w) (write_color w) m)
  end.

(** The last call of a log that addresses the key [k]. *)
Definition last_write (k : Key) (ws : list Write) : option Write :=
  find (fun w => key_eqb k (write_key w)) (rev ws).

(** The state reached from [s] by the calls [ws] of [addVoxel]. *)
Definition after (ws : list Write) (s : State) : State :=
  {| voxelMap := apply_writes ws (voxelMap s); writes := writes s ++ ws |}.

(** [emits c v ws]: from any state, [c] returns [v] after calling [addVoxel]
    with exactly the arguments [ws], in that order, and doing nothing else to
    the state. *)
Definition emits {A} (c : M A) (v : A) (ws : list Write) : Prop :=
  forall s, c s = Some (v, after ws s).

(** The cells of a [w] by [h] plane in loop order (rows outside), each
    giving the writes [f x y]. *)
Definition plane_writes (w h : Z) (f : Z -> Z -> list Write) : list Write :=
  flat_map (fun y => flat_map (fun x => f x y) (range 0 w)) (range 0 h).

(** The calls of the frame loop, of the backplate loop, and of whichever
    of them the sign type selects. *)
Definition frame_writes (params : SignToVoxInput) : list Write :=
  plane_writes (signWidth params) (signHeight params)
    (fun x y => if isFrame params x y then [(x, y, 15, 2)] else []).

Definition backplate_writes (params : SignToVoxInput) : list Write :=
  flat_map (fun z =>
    plane_writes (signWidth params) (signHeight params)
      (fun x y => if isInside (signWidth params) (signHeight params) x y
                  then [(x, y, zStart + z, 1)] else []))
    (range 0 (hangingSignThickness params)).

Definition shape_writes (params : SignToVoxInput) : list Write :=
  if is_standard (signType params) && frame params then frame_writes params
  else if is_hanging (signType params) then backplate_writes params
  else [].

(** The calls of the pixel loops of one item painted at [currentX]. *)
Definition item_writes (params : SignToVoxInput) (item : ContentItem)
    (currentX : Z) : list Write :=
  plane_writes (item_width item) (item_height item)
    (fun x y =>
       if js_get (item_pixels item) (y * item_width item + x)
       then [(x + (currentX + item_offsetX item),
              signHeight params - 1
              - (y + (pad params
                      + (availableHeight params - item_height item) / 2
                      + item_offsetY item)),
              voxelDepth,
              if is_standard (signType params) then 2 else 3)]
       else []).

(** The value of [currentX] when each item is painted. *)
Fixpoint cursors (params : SignToVoxInput) (contentItems : list ContentItem)
    (currentX : Z) : list Z :=
  match contentItems with
  | [] => []
  | item :: rest =>
      currentX
      :: cursors params rest (currentX + (itemWidth params item + spacing))
  end.

(** The calls of the placement loop started at [currentX]. *)
Definition content_writes (params : SignToVoxInput)
    (contentItems : list ContentItem) (currentX : Z) : list Write :=
  flat_map (fun ix => item_writes params (fst ix) (snd ix))
           (combine contentItems (cursors params contentItems currentX)).

(** The anchor, and the calls of a whole run whose content items are
    [contentItems]. *)
Definition anchor : Write := (0, 0, 0, 2).

Definition all_writes (params : SignToVoxInput)
    (contentItems : list ContentItem) : list Write :=
  shape_writes params
  ++ content_writes params contentItems (startX params contentItems)
  ++ [anchor].

(** ** Layout *)

Definition sumZ (l : list Z) : Z := fold_right Z.add 0 l.

Definition is_icon (t : ItemType) : bool :=
  match t with icon_item => true | text_item => false end.

(** The effective width as the specification words it: the bitmap width,
    except for the text item of a hanging sign when the items also hold an
    icon, where the icon's width and the spacing of 4 are taken off. *)
Definition effective_width_spec (hangingSign : bool)
    (items : list ContentItem) (item : ContentItem) : Z :=
  match item_type item with
  | text_item =>
      match find (fun i => is_icon (item_type i)) items with
      | Some ic =>
          if hangingSign then item_width item - (item_width ic + 4)
          else item_width item
      | None => item_width item
      end
  | icon_item => item_width item
  end.

(** ** Shapes *)

(** The centre of the cell [(x, y)] lies within [radius] of the point
    [(cx, cy)]. *)
Definition near_corner (x y cx cy radius : Z) : Prop :=
  ((inject_Z x + (1 # 2) - inject_Z cx) ^ 2
   + (inject_Z y + (1 # 2) - inject_Z cy) ^ 2 <= inject_Z radius ^ 2)%Q.

(** The rounded rectangle of the backplate as the specification words it:
    the two bands between the corners, or within 4 of a corner centre. *)
Definition in_rounded_rect (w h x y : Z) : Prop :=
  (4 <= x < w - 4) \/ (4 <= y < h - 4)
  \/ near_corner x y 4 4 4 \/ near_corner x y (w - 4) 4 4
  \/ near_corner x y 4 (h - 4) 4 \/ near_corner x y (w - 4) (h - 4) 4.

(** The cell [(x, y)] lies in the square of side [side] whose least cell is
    [(x0, y0)]. *)
Definition in_square (x0 y0 side x y : Z) : bool :=
  ((x0 <=? x) && (x <? x0 + side)) && ((y0 <=? y) && (y <? y0 + side)).

(** The centre of the cell [(x, y)] is farther than [radius] from
    [(cx, cy)]. *)
Definition outside_circle (cx cy radius x y : Z) : bool :=
  4 * radius ^ 2 <? sq4 (x - cx) (y - cy).

(** The corner cut-out as the specification words it, for a [w] by [h] sign
    of frame width [f]: the cell lies in the square of side [2 * f] that sits
    in one of the four corners of the plane, and farther than [2 * f] from
    that corner's rounding centre (the centres are the ones the source
    passes to [checkCorner]). *)
Definition corner_cutout_spec (w h f x y : Z) : bool :=
  let cornerRadius := 2 * f in
  (in_square 0 0 cornerRadius x y
   && outside_circle cornerRadius cornerRadius cornerRadius x y)
  || (in_square (w - cornerRadius) 0 cornerRadius x y
      && outside_circle (w - 1 - cornerRadius) cornerRadius cornerRadius x y)
  || (in_square 0 (h - cornerRadius) cornerRadius x y
      && outside_circle cornerRadius (h - 1 - cornerRadius) cornerRadius x y)
  || (in_square (w - cornerRadius) (h - cornerRadius) cornerRadius x y
      && outside_circle (w - 1 - cornerRadius) (h - 1 - cornerRadius)
                        cornerRadius x y).

(** The cut-out the source computes: the four calls of [checkCorner]. *)
Definition carved (params : SignToVoxInput) (x y : Z) : bool :=
  let cornerRadius := frameWidth params * 2 in
  checkCorner x y cornerRadius cornerRadius cornerRadius
  || checkCorner x y (signWidth params - 1 - cornerRadius) cornerRadius
                 cornerRadius
  || checkCorner x y cornerRadius (signHeight params - 1 - cornerRadius)
                 cornerRadius
  || checkCorner x y (signWidth params - 1 - cornerRadius)
                 (signHeight params - 1 - cornerRadius) cornerRadius.

(** Within [frameWidth] cells of an edge of the plane. *)
Definition on_edge_band (params : SignToVoxInput) (x y : Z) : bool :=
  (y <? frameWidth params) || (signHeight params - frameWidth params <=? y)
  || (x <? frameWidth params) || (signWidth params - frameWidth params <=? x).

(** ** Inputs up to the fields the flow ignores

    Two inputs differ at most in [signIconOffsetY] and [textOffsetY] when
    [without_offsetY] maps them to the same input; likewise for the other
    two. *)

Definition without_offsetY (p : SignToVoxInput) : SignToVoxInput :=
  {| signType := signType p; width := width p; height := height p;
     frame := frame p; frameWidth := frameWidth p;
     hangingWidth := hangingWidth p;
     hangingIconPosition := hangingIconPosition p;
     hangingSignThickness := hangingSignThickness p;
     hangingSignIconOffsetX := hangingSignIconOffsetX p;
     hangingSignTextOffsetX := hangingSignTextOffsetX p;
     icon := icon p; text := text p; signIconScale := signIconScale p;
     signIconOffsetY := 0; textOffsetY := 0;
     signWithIcon := signWithIcon p |}.

Definition without_hangingOffsetX (p : SignToVoxInput) : SignToVoxInput :=
  {| signType := signType p; width := width p; height := height p;
     frame := frame p; frameWidth := frameWidth p;
     hangingWidth := hangingWidth p;
     hangingIconPosition := hangingIconPosition p;
     hangingSignThickness := hangingSignThickness p;
     hangingSignIconOffsetX := 0;
     hangingSignTextOffsetX := 0;
     icon := icon p; text := text p; signIconScale := signIconScale p;
     signIconOffsetY := signIconOffsetY p; textOffsetY := textOffsetY p;
     signWithIcon := signWithIcon p |}.

Definition without_iconScale (p : SignToVoxInput) : SignToVoxInput :=
  {| signType := signType p; width := width p; height := height p;
     frame := frame p; frameWidth := frameWidth p;
     hangingWidth := hangingWidth p;
     hangingIconPosition := hangingIconPosition p;
     hangingSignThickness := hangingSignThickness p;
     hangingSignIconOffsetX := hangingSignIconOffsetX p;
     hangingSignTextOffsetX := hangingSignTextOffsetX p;
     icon := icon p; text := text p; signIconScale := 0;
     signIconOffsetY := signIconOffsetY p; textOffsetY := textOffsetY p;
     signWithIcon := signWithIcon p |}.

(** The inputs up to the vertical offset carried by the icon itself. *)
Definition without_icon_offsetY (p : SignToVoxInput) : SignToVoxInput :=
  {| signType := signType p; width := width p; height := height p;
     frame := frame p; frameWidth := frameWidth p;
     hangingWidth := hangingWidth p;
     hangingIconPosition := hangingIconPosition p;
     hangingSignThickness := hangingSignThickness p;
     hangingSignIconOffsetX := hangingSignIconOffsetX p;
     hangingSignTextOffsetX := hangingSignTextOffsetX p;
     icon := match icon p with
             | Some ic => Some {| px_pixels := px_pixels ic;
                                  px_width := px_width ic;
                                  px_height := px_height ic;
                                  px_offsetY := None |}
             | None => None
             end;
     text := text p; signIconScale := signIconScale p;
     signIconOffsetY := signIconOffsetY p; textOffsetY := textOffsetY p;
     signWithIcon := signWithIcon p |}.

(** The inputs up to the fields of the standard sign, set to values the
    schema accepts. *)
Definition without_standard_fields (p : SignToVoxInput) : SignToVoxInput :=
  {| signType := signType p; width := 16; height := 16;
     frame := false; frameWidth := 1;
     hangingWidth := hangingWidth p;
     hangingIconPosition := hangingIconPosition p;
     hangingSignThickness := hangingSignThickness p;
     hangingSignIconOffsetX := hangingSignIconOffsetX p;
     hangingSignTextOffsetX := hangingSignTextOffsetX p;
     icon := icon p; text := text p; signIconScale := signIconScale p;
     signIconOffsetY := signIconOffsetY p; textOffsetY := textOffsetY p;
     signWithIcon := signWithIcon p |}.

(** The inputs up to the fields of the hanging sign, set to values the
    schema accepts. *)
Definition without_hanging_fields (p : SignToVoxInput) : SignToVoxInput :=
  {| signType := signType p; width := width p; height := height p;
     frame := frame p; frameWidth := frameWidth p;
     hangingWidth := 0;
     hangingIconPosition := icon_left;
     hangingSignThickness := 1;
     hangingSignIconOffsetX := 0;
     hangingSignTextOffsetX := 0;
     icon := icon p; text := text p; signIconScale := signIconScale p;
     signIconOffsetY := signIconOffsetY p; textOffsetY := textOffsetY p;
     signWithIcon := signWithIcon p |}.

(** The pixel [(x, y)] of [line], drawn with its first row at [top], is the
    element [j] of the combined bitmap of width [availableWidth]. *)
Definition line_pixel_at (availableWidth top : Z) (line : TextLine)
    (x y j : Z) : Prop :=
  0 <= x < line_width line /\ 0 <= y < line_height line
  /\ js_get (line_pixels line) (y * line_width line + x) = true
  /\ j = (top + y) * availableWidth
         + ((availableWidth - line_width line) / 2 + x)
  /\ 0 <= j < 2 ^ 32 - 1.

(** ** Examples *)

(** A stand-in platform to run the flow on examples: the rasteriser draws,
    on a single line of height 3, a solid block 2 pixels wide per code unit;
    [toUpperCase] maps the ASCII lower-case letters; the writer lists the
    palette indices of the records. *)
Definition example_platform : Platform :=
  {| rasterizePixelText := fun text maxWidth =>
       let w := 2 * Z.of_nat (length text) in
       Some {| lines := [ {| line_width := w; line_height := 3;
                             line_pixels := repeat true (Z.to_nat (w * 3)) |} ];
               totalHeight := 3 |};
     toUpperCase :=
       map (fun c => if (97 <=? c)%N && (c <=? 122)%N then (c - 32)%N else c);
     writeVox := fun vo => map vi (values (xyzi vo));
     toBase64 := map Z.to_N;
     numberToString := fun n => DecimalString.NilZero.string_of_int (Z.to_int n) |}.

(** A framed standard sign of 48 by 40 with frame width 2 and no content. *)
Definition example_frame : SignToVoxInput :=
  {| signType := standard; width := 48; height := 40; frame := true;
     frameWidth := 2; hangingWidth := 64; hangingIconPosition := icon_left;
     hangingSignThickness := 4; hangingSignIconOffsetX := 0;
     hangingSignTextOffsetX := 0; icon := None; text := [];
     signIconScale := 50; signIconOffsetY := 0; textOffsetY := 0;
     signWithIcon := false |}.

(** The same sign with the text "Hi" and vertical offsets. *)
Definition example_standard : SignToVoxInput :=
  {| signType := standard; width := 48; height := 40; frame := true;
     frameWidth := 2; hangingWidth := 64; hangingIconPosition := icon_left;
     hangingSignThickness := 4; hangingSignIconOffsetX := 0;
     hangingSignTextOffsetX := 0; icon := None; text := [72; 105]%N;
     signIconScale := 50; signIconOffsetY := 1; textOffsetY := -2;
     signWithIcon := false |}.

(** A hanging sign of width 48 and thickness 2 with a 4 by 4 icon on the left
    of the text "PATH". *)
Definition example_hanging : SignToVoxInput :=
  {| signType := hanging; width := 16; height := 16; frame := false;
     frameWidth := 1; hangingWidth := 48; hangingIconPosition := icon_left;
     hangingSignThickness := 2; hangingSignIconOffsetX := 1;
     hangingSignTextOffsetX := 0;
     icon := Some {| px_pixels := repeat true 16; px_width := 4;
                     px_height := 4; px_offsetY := None |};
     text := [80; 65; 84; 72]%N;
     signIconScale := 20; signIconOffsetY := 0; textOffsetY := 0;
     signWithIcon := true |}.

(** The example inputs with the ignored fields changed. *)
Definition example_hanging_moved : SignToVoxInput :=
  {| signType := hanging; width := 16; height := 16; frame := false;
     frameWidth := 1; hangingWidth := 48; hangingIconPosition := icon_left;
     hangingSignThickness := 2; hangingSignIconOffsetX := 1;
     hangingSignTextOffsetX := 0;
     icon := Some {| px_pixels := repeat true 16; px_width := 4;
                     px_height := 4; px_offsetY := None |};
     text := [80; 65; 84; 72]%N;
     signIconScale := 20; signIconOffsetY := 5; textOffsetY := -3;
     signWithIcon := true |}.

Definition example_standard_moved : SignToVoxInput :=
  {| signType := standard; width := 48; height := 40; frame := true;
     frameWidth := 2; hangingWidth := 64; hangingIconPosition := icon_left;
     hangingSignThickness := 4; hangingSignIconOffsetX := 7;
     hangingSignTextOffsetX := -7; icon := None; text := [72; 105]%N;
     signIconScale := 50; signIconOffsetY := 1; textOffsetY := -2;
     signWithIcon := false |}.

Definition example_standard_scaled : SignToVoxInput :=
  {| signType := standard; width := 48; height := 40; frame := true;
     frameWidth := 2; hangingWidth := 64; hangingIconPosition := icon_left;
     hangingSignThickness := 4; hangingSignIconOffsetX := 0;
     hangingSignTextOffsetX := 0; icon := None; text := [72; 105]%N;
     signIconScale := 80; signIconOffsetY := 1; textOffsetY := -2;
     signWithIcon := false |}.

(** A framed standard sign whose frame is wider than half the sign, with the
    text "A". *)
Definition example_oversized : SignToVoxInput :=
  {| signType := standard; width := 16; height := 16; frame := true;
     frameWidth := 9; hangingWidth := 48; hangingIconPosition := icon_left;
     hangingSignThickness := 1; hangingSignIconOffsetX := 0;
     hangingSignTextOffsetX := 0; icon := None; text := [65]%N;
     signIconScale := 50; signIconOffsetY := 0; textOffsetY := 0;
     signWithIcon := false |}.

(** An unframed standard sign with no icon and a text of one space. *)
Definition example_empty : SignToVoxInput :=
  {| signType := standard; width := 16; height := 16; frame := false;
     frameWidth := 1; hangingWidth := 48; hangingIconPosition := icon_left;
     hangingSignThickness := 1; hangingSignIconOffsetX := 0;
     hangingSignTextOffsetX := 0; icon := None; text := [32]%N;
     signIconScale := 50; signIconOffsetY := 0; textOffsetY := 0;
     signWithIcon := true |}.

(** A standard sign of 16 by 16 with frame width 1 and no content. *)
Definition example_unit_frame : SignToVoxInput :=
  {| signType := standard; width := 16; height := 16; frame := true;
     frameWidth := 1; hangingWidth := 48; hangingIconPosition := icon_left;
     hangingSignThickness := 1; hangingSignIconOffsetX := 0;
     hangingSignTextOffsetX := 0; icon := None; text := [];
     signIconScale := 50; signIconOffsetY := 0; textOffsetY := 0;
     signWithIcon := false |}.

(** A hanging sign of thickness 17 with no content. *)
Definition example_thick : SignToVoxInput :=
  {| signType := hanging; width := 16; height := 16; frame := false;
     frameWidth := 1; hangingWidth := 48; hangingIconPosition := icon_left;
     hangingSignThickness := 17; hangingSignIconOffsetX := 0;
     hangingSignTextOffsetX := 0; icon := None; text := [];
     signIconScale := 20; signIconOffsetY := 0; textOffsetY := 0;
     signWithIcon := false |}.

(** [example_hanging] with an offset carried by the icon, and with other
    fields of the standard sign. *)
Definition example_hanging_icon_offset : SignToVoxInput :=
  {| signType := hanging; width := 16; height := 16; frame := false;
     frameWidth := 1; hangingWidth := 48; hangingIconPosition := icon_left;
     hangingSignThickness := 2; hangingSignIconOffsetX := 1;
     hangingSignTextOffsetX := 0;
     icon := Some {| px_pixels := repeat true 16; px_width := 4;
                     px_height := 4; px_offsetY := Some 3 |};
     text := [80; 65; 84; 72]%N;
     signIconScale := 20; signIconOffsetY := 0; textOffsetY := 0;
     signWithIcon := true |}.

Definition example_hanging_resized : SignToVoxInput :=
  {| signType := hanging; width := 100; height := 20; frame := true;
     frameWidth := 3; hangingWidth := 48; hangingIconPosition := icon_left;
     hangingSignThickness := 2; hangingSignIconOffsetX := 1;
     hangingSignTextOffsetX := 0;
     icon := Some {| px_pixels := repeat true 16; px_width := 4;
                     px_height := 4; px_offsetY := None |};
     text := [80; 65; 84; 72]%N;
     signIconScale := 20; signIconOffsetY := 0; textOffsetY := 0;
     signWithIcon := true |}.

(** [example_standard] with other fields of the hanging sign. *)
Definition example_standard_rehung : SignToVoxInput :=
  {| signType := standard; width := 48; height := 40; frame := true;
     frameWidth := 2; hangingWidth := 80; hangingIconPosition := icon_right;
     hangingSignThickness := 9; hangingSignIconOffsetX := 3;
     hangingSignTextOffsetX := -3; icon := None; text := [72; 105]%N;
     signIconScale := 50; signIconOffsetY := 1; textOffsetY := -2;
     signWithIcon := false |}.

(** [example_standard] with a 4 by 4 icon. *)
Definition example_standard_icon : SignToVoxInput :=
  {| signType := standard; width := 48; height := 40; frame := true;
     frameWidth := 2; hangingWidth := 64; hangingIconPosition := icon_left;
     hangingSignThickness := 4; hangingSignIconOffsetX := 0;
     hangingSignTextOffsetX := 0;
     icon := Some {| px_pixels := repeat true 16; px_width := 4;
                     px_height := 4; px_offsetY := None |};
     text := [72; 105]%N;
     signIconScale := 50; signIconOffsetY := 1; textOffsetY := -2;
     signWithIcon := true |}.

(** The stand-in platform with a rasteriser that always rejects. *)
Definition example_platform_rejecting : Platform :=
  {| rasterizePixelText := fun _ _ => None;
     toUpperCase := fun s => s;
     writeVox := writeVox example_platform;
     toBase64 := toBase64 example_platform;
     numberToString := numberToString example_platform |}.

(** A computation that may throw has returned. *)
Definition returns {A} (o : option A) : bool :=
  match o with Some _ => true | None => false end.

(** * Properties *)

(** ** Arithmetic of the primitives *)

Lemma toInt32_small (n : Z) : - 2 ^ 31 <= n < 2 ^ 31 -> toInt32 n = n.
Proof.
  intros H. unfold toInt32. rewrite Z.mod_small; lia.
Qed.

Lemma toInt32_range (n : Z) : - 2 ^ 31 <= toInt32 n < 2 ^ 31.
Proof.
  unfold toInt32.
  pose proof (Z.mod_pos_bound (n + 2 ^ 31) (2 ^ 32) ltac:(lia)). lia.
Qed.

(** The scaled corner test is the one of the source: with [dx], [dy] and
    [radius] integers, [(dx + 0.5)^2 + (dy + 0.5)^2] compares with [radius^2]
    as [sq4 dx dy] compares with [4 * radius^2]. *)
Lemma quarter_scaling (dx dy radius : Z) :
  ((inject_Z dx + (1 # 2)) ^ 2 + (inject_Z dy + (1 # 2)) ^ 2 <= inject_Z radius ^ 2)%Q
  <-> sq4 dx dy <= 4 * radius ^ 2.
Proof.
  unfold sq4.
  assert (E : forall d : Z,
             (4 * (inject_Z d + (1 # 2)) ^ 2 == inject_Z ((2 * d + 1) ^ 2))%Q).
  { intros d.
    replace ((2 * d + 1) ^ 2) with ((2 * d + 1) * (2 * d + 1)) by ring.
    rewrite !inject_Z_mult, !inject_Z_plus, !inject_Z_mult. simpl Qpower.
    change (inject_Z 2) with 2%Q. change (inject_Z 1) with 1%Q. field. }
  assert (F : (4 * inject_Z radius ^ 2 == inject_Z (4 * radius ^ 2))%Q).
  { replace (4 * radius ^ 2) with (4 * (radius * radius)) by ring.
    rewrite !inject_Z_mult. simpl Qpower. change (inject_Z 4) with 4%Q. ring. }
  rewrite Zle_Qle, inject_Z_plus, <- !E, <- F.
  split; intros H; lra.
Qed.

Lemma in_countFrom (n : nat) (lo i : Z) :
  In i (countFrom n lo) <-> lo <= i < lo + Z.of_nat n.
Proof.
  revert lo; induction n as [|n IH]; intros lo; simpl.
  - lia.
  - rewrite IH. lia.
Qed.

Lemma in_range (lo hi i : Z) : In i (range lo hi) <-> lo <= i < hi.
Proof.
  unfold range. rewrite in_countFrom. lia.
Qed.

Lemma trimStart_nil_iff (s : jsstring) :
  trimStart s = [] <-> forallb isWhiteSpace s = true.
Proof.
  induction s as [|c s IH]; simpl.
  - tauto.
  - destruct (isWhiteSpace c); simpl; [exact IH | split; discriminate].
Qed.

Lemma trimStart_head (s : jsstring) (c : N) (t : jsstring) :
  trimStart s = c :: t -> isWhiteSpace c = false.
Proof.
  induction s as [|d s IH]; simpl; [discriminate|].
  destruct (isWhiteSpace d) eqn:E; [exact IH|].
  intros H; injection H as -> _. exact E.
Qed.

(** A string trims to the empty string exactly when all its code units are
    white space. *)
Lemma trim_nil_iff (s : jsstring) :
  trim s = [] <-> forallb isWhiteSpace s = true.
Proof.
  unfold trim, trimEnd. split.
  - intros H. apply trimStart_nil_iff.
    destruct (trimStart s) as [|c t] eqn:E; [reflexivity|].
    exfalso.
    assert (Hr : trimStart (rev (c :: t)) = []).
    { apply (f_equal (@rev N)) in H. rewrite rev_involutive in H. exact H. }
    apply trimStart_nil_iff in Hr.
    rewrite forallb_forall in Hr.
    specialize (Hr c). rewrite <- in_rev in Hr.
    rewrite (trimStart_head _ E) in Hr.
    specialize (Hr (or_introl eq_refl)). discriminate.
  - intros H. apply trimStart_nil_iff in H. rewrite H. reflexivity.
Qed.

(** ** The voxel map: last write wins *)

Lemma key_eqb_eq (k k' : Key) : key_eqb k k' = true <-> k = k'.
Proof.
  destruct k as [[x y] z], k' as [[x' y'] z']; simpl.
  rewrite !andb_true_iff, !Z.eqb_eq.
  split; [intros [[-> ->] ->]; reflexivity | intros [= -> -> ->]; auto].
Qed.

Lemma key_eqb_refl (k : Key) : key_eqb k k = true.
Proof. now apply key_eqb_eq. Qed.

Lemma key_eqb_neq (k k' : Key) : key_eqb k k' = false <-> k <> k'.
Proof.
  rewrite <- key_eqb_eq. destruct (key_eqb k k'); split; congruence.
Qed.

Lemma map_get_set_same (k : Key) (v : Z) (m : VoxelMap) :
  map_get k (map_set k v m) = Some v.
Proof.
  induction m as [|[k' v'] m IH]; simpl.
  - now rewrite key_eqb_refl.
  - destruct (key_eqb k k') eqn:E; simpl; rewrite E; auto.
Qed.

Lemma map_get_set_other (k k0 : Key) (v : Z) (m : VoxelMap) :
  k <> k0 -> map_get k (map_set k0 v m) = map_get k m.
Proof.
  intros Hne. induction m as [|[k' v'] m IH]; simpl.
  - apply key_eqb_neq in Hne. now rewrite Hne.
  - destruct (key_eqb k0 k') eqn:E; simpl.
    + apply key_eqb_eq in E. subst k'.
      apply key_eqb_neq in Hne. now rewrite Hne.
    + now rewrite IH.
Qed.

Lemma map_set_keys (k : Key) (v : Z) (m : VoxelMap) :
  map fst (map_set k v m)
  = if in_dec key_eq_dec k (map fst m) then map fst m else map fst m ++ [k].
Proof.
  induction m as [|[k' v'] m IH]; simpl.
  - reflexivity.
  - destruct (key_eqb k k') eqn:E; simpl.
    + apply key_eqb_eq in E. subst k'.
      destruct (key_eq_dec k k); [|congruence].
      reflexivity.
    + apply key_eqb_neq in E. rewrite IH.
      destruct (key_eq_dec k' k); [congruence|].
      destruct (in_dec key_eq_dec k (map fst m)); reflexivity.
Qed.

Lemma apply_writes_app (ws1 ws2 : list Write) (m : VoxelMap) :
  apply_writes (ws1 ++ ws2) m = apply_writes ws2 (apply_writes ws1 m).
Proof.
  revert m; induction ws1 as [|w ws1 IH]; intros m; simpl; auto.
Qed.

Lemma last_write_snoc (k : Key) (ws : list Write) (w : Write) :
  last_write k (ws ++ [w])
  = if key_eqb k (write_key w) then Some w else last_write k ws.
Proof.
  unfold last_write. rewrite rev_app_distr. reflexivity.
Qed.

Lemma map_get_apply_writes (k : Key) (ws : list Write) (m : VoxelMap) :
  map_get k (apply_writes ws m)
  = match last_write k ws with
    | Some w => Some (write_color w)
    | None => map_get k m
    end.
Proof.
  revert m. induction ws as [|w ws IH] using rev_ind; intros m.
  - reflexivity.
  - rewrite apply_writes_app, last_write_snoc. simpl.
    destruct (key_eqb k (write_key w)) eqn:E.
    + apply key_eqb_eq in E. subst k. apply map_get_set_same.
    + apply key_eqb_neq in E. rewrite map_get_set_other by exact E. apply IH.
Qed.

Lemma apply_writes_NoDup (ws : list Write) (m : VoxelMap) :
  NoDup (map fst m) -> NoDup (map fst (apply_writes ws m)).
Proof.
  revert m; induction ws as [|w ws IH]; intros m Hm; simpl; [exact Hm|].
  apply IH. rewrite map_set_keys.
  destruct (in_dec key_eq_dec (write_key w) (map fst m)) as [Hin|Hnin].
  - exact Hm.
  - apply NoDup_app; [exact Hm | repeat constructor; intros [] | ].
    intros x Hx [<-|[]]. contradiction.
Qed.

Lemma apply_writes_keys (ws : list Write) (m : VoxelMap) (k : Key) :
  In k (map fst (apply_writes ws m))
  <-> In k (map fst m) \/ In k (map write_key ws).
Proof.
  revert m; induction ws as [|w ws IH]; intros m; simpl.
  - tauto.
  - rewrite IH, map_set_keys.
    destruct (in_dec key_eq_dec (write_key w) (map fst m)) as [Hin|Hnin].
    + intuition (subst; auto).
    + rewrite in_app_iff. simpl. tauto.
Qed.

(** The number of entries is the number of distinct keys written. *)
Lemma apply_writes_length (ws : list Write) :
  length (apply_writes ws [])
  = length (nodup key_eq_dec (map write_key ws)).
Proof.
  rewrite <- (length_map fst (apply_writes ws [])).
  apply Permutation_length, NoDup_Permutation.
  - apply apply_writes_NoDup. constructor.
  - apply NoDup_nodup.
  - intros k. rewrite apply_writes_keys, nodup_In. simpl. tauto.
Qed.

(** ** The log of a computation *)

Lemma after_nil (s : State) : after [] s = s.
Proof.
  destruct s; unfold after; simpl. now rewrite app_nil_r.
Qed.

Lemma after_app (ws1 ws2 : list Write) (s : State) :
  after (ws1 ++ ws2) s = after ws2 (after ws1 s).
Proof.
  unfold after; simpl. now rewrite apply_writes_app, app_assoc.
Qed.

Lemma emits_ret {A} (v : A) : emits (ret v) v [].
Proof.
  intros s. unfold ret. now rewrite after_nil.
Qed.

Lemma emits_addVoxel (px py pz colorIndex : Z) :
  emits (addVoxel px py pz colorIndex) tt [(px, py, pz, colorIndex)].
Proof.
  intros s. reflexivity.
Qed.

Lemma emits_bind {A B} (c : M A) (k : A -> M B) v v' ws1 ws2 :
  emits c v ws1 -> emits (k v) v' ws2 -> emits (bind c k) v' (ws1 ++ ws2).
Proof.
  intros H1 H2 s. unfold bind. now rewrite H1, H2, after_app.
Qed.

Lemma emits_when (c : bool) (m : M unit) (ws : list Write) :
  emits m tt ws -> emits (when c m) tt (if c then ws else []).
Proof.
  intros H. destruct c; simpl; [exact H | apply emits_ret].
Qed.

Lemma emits_forEach {A} (l : list A) (body : A -> M unit)
    (f : A -> list Write) :
  (forall x, emits (body x) tt (f x)) ->
  emits (forEach l body) tt (flat_map f l).
Proof.
  intros H. induction l as [|x l IH]; simpl.
  - apply emits_ret.
  - apply emits_bind with (v := tt); [apply H | exact IH].
Qed.

Lemma emits_for_lt (lo hi : Z) (body : Z -> M unit) (f : Z -> list Write) :
  (forall i, emits (body i) tt (f i)) ->
  emits (for_lt lo hi body) tt (flat_map f (range lo hi)).
Proof.
  intros H. now apply emits_forEach.
Qed.

Create HintDb emits.
#[local] Hint Resolve emits_ret emits_addVoxel emits_when emits_for_lt : emits.

(** ** The writes of each phase *)

Lemma emits_plane (w h : Z) (body : Z -> Z -> M unit)
    (f : Z -> Z -> list Write) :
  (forall x y, emits (body x y) tt (f x y)) ->
  emits (for_lt 0 h (fun y => for_lt 0 w (fun x => body x y))) tt
        (plane_writes w h f).
Proof.
  intros H. unfold plane_writes.
  apply emits_for_lt. intros y. apply emits_for_lt. intros x. apply H.
Qed.

Lemma emits_shape (params : SignToVoxInput) :
  emits (shape params) tt (shape_writes params).
Proof.
  unfold shape, shape_writes.
  destruct (is_standard (signType params) && frame params).
  - apply emits_plane. intros x y.
    apply (emits_when (isFrame params x y)). auto with emits.
  - destruct (is_hanging (signType params)); [|auto with emits].
    apply emits_for_lt. intros z. apply emits_plane. intros x y.
    apply (emits_when (isInside _ _ x y)). auto with emits.
Qed.

Lemma emits_paintItem (params : SignToVoxInput) (item : ContentItem)
    (currentX : Z) :
  emits (paintItem params item currentX) tt (item_writes params item currentX).
Proof.
  unfold paintItem, item_writes.
  apply emits_plane. intros x y.
  apply (emits_when (js_get _ _)). auto with emits.
Qed.

Lemma emits_placeItems (params : SignToVoxInput)
    (items : list ContentItem) (currentX : Z) :
  emits (placeItems params items currentX)
        (currentX
         + sumZ (map (fun item => itemWidth params item + spacing) items))
        (content_writes params items currentX).
Proof.
  revert currentX. induction items as [|item rest IH]; intros currentX.
  - simpl. rewrite Z.add_0_r. apply emits_ret.
  - unfold content_writes. simpl.
    apply emits_bind with (v := tt); [apply emits_paintItem|].
    replace (currentX + (itemWidth params item + spacing
                         + sumZ (map (fun item => itemWidth params item + spacing)
                                     rest)))
      with (currentX + (itemWidth params item + spacing)
            + sumZ (map (fun item => itemWidth params item + spacing) rest))
      by ring.
    apply IH.
Qed.

Lemma in_plane_writes (w h : Z) (f : Z -> Z -> list Write) (wr : Write) :
  In wr (plane_writes w h f)
  <-> exists x y, 0 <= x < w /\ 0 <= y < h /\ In wr (f x y).
Proof.
  unfold plane_writes. rewrite in_flat_map. split.
  - intros [y [Hy H]]. apply in_flat_map in H. destruct H as [x [Hx H]].
    apply in_range in Hx, Hy. eauto.
  - intros [x [y [Hx [Hy H]]]]. exists y. split; [now apply in_range|].
    apply in_flat_map. exists x. split; [now apply in_range | exact H].
Qed.

(** ** Runs of the flow *)

Section FlowProperties.

Variable pf : Platform.

(** A run that returns has passed the schema, obtained its content items and
    made the writes of the three phases, in this order. *)
Lemma flow_init (params : SignToVoxInput) :
  flow pf params init_state
  = match contentItems pf params with
    | None => None
    | Some items =>
        let s := after (all_writes params items) init_state in
        Some (assemble pf params (voxelMap s), s)
    end.
Proof.
  unfold flow, bind at 1. rewrite (emits_shape params init_state).
  unfold bind at 1, lift.
  destruct (contentItems pf params) as [items|]; [|reflexivity].
  pose proof (emits_placeItems params items (startX params items)) as H.
  unfold bind at 1. rewrite H.
  unfold bind at 1. rewrite (emits_addVoxel 0 0 0 2).
  unfold bind, get_voxelMap, ret.
  unfold all_writes. rewrite !after_app. reflexivity.
Qed.

Lemma run_inv (input : SignToVoxInput) vo out s :
  run pf input = Some (vo, out, s) ->
  parse input = Some input
  /\ exists items,
       contentItems pf input = Some items
       /\ s = after (all_writes input items) init_state
       /\ (vo, out) = assemble pf input (voxelMap s).
Proof.
  unfold run, parse.
  destruct (_ && _); [|discriminate].
  rewrite flow_init.
  destruct (contentItems pf input) as [items|]; [|discriminate].
  simpl. intros [= <- <- <-]. split; [reflexivity|].
  exists items. auto.
Qed.

(** The flow returns whenever the schema accepts the input and the content
    items are obtained. *)
Lemma run_total (input : SignToVoxInput) (items : list ContentItem) :
  parse input = Some input ->
  contentItems pf input = Some items ->
  exists vo out s, run pf input = Some (vo, out, s).
Proof.
  intros Hp Hc. unfold run. rewrite Hp, flow_init, Hc. simpl.
  destruct (assemble pf input _) as [vo out]. eauto.
Qed.

Lemma writes_after_init (ws : list Write) :
  writes (after ws init_state) = ws
  /\ voxelMap (after ws init_state) = apply_writes ws [].
Proof.
  split; reflexivity.
Qed.

(** ** Anchor *)

(** C1.  In every run that returns, the log of writes is the shape writes,
    then the content writes, then one write of palette index 2 at (0,0,0);
    this write is the last one of the log, and the final map holds index 2
    at (0,0,0). *)
Theorem anchor_written_last (input : SignToVoxInput) vo out s :
  run pf input = Some (vo, out, s) ->
  exists items,
    contentItems pf input = Some items
    /\ writes s
       = (shape_writes input
          ++ content_writes input items (startX input items))
         ++ [(0, 0, 0, 2)]
    /\ last (writes s) (1, 1, 1, 1) = (0, 0, 0, 2)
    /\ voxelMap s = apply_writes (writes s) []
    /\ map_get (0, 0, 0) (voxelMap s) = Some 2.
Proof.
  intros H. apply run_inv in H. destruct H as [_ [items [Hc [-> _]]]].
  exists items. split; [exact Hc|].
  destruct (writes_after_init (all_writes input items)) as [-> ->].
  unfold all_writes, anchor. rewrite app_assoc.
  repeat split.
  - apply last_last.
  - rewrite map_get_apply_writes, last_write_snoc. reflexivity.
Qed.

(** ** Counts *)

(** C2.  In every run that returns, the map has one entry per distinct
    coordinate, [totalVoxels] is the number of distinct coordinates of the
    final map minus 1, and the count of the XYZI record is [totalVoxels + 1]
    and is the number of records it carries. *)
Theorem totalVoxels_excludes_anchor (input : SignToVoxInput) vo out s :
  run pf input = Some (vo, out, s) ->
  NoDup (map fst (voxelMap s))
  /\ totalVoxels out
     = Z.of_nat (length (nodup key_eq_dec (map fst (voxelMap s)))) - 1
  /\ totalVoxels out
     = Z.of_nat (length (nodup key_eq_dec (map write_key (writes s)))) - 1
  /\ numVoxels (xyzi vo) = totalVoxels out + 1
  /\ numVoxels (xyzi vo) = Z.of_nat (length (values (xyzi vo))).
Proof.
  intros H. apply run_inv in H. destruct H as [_ [items [_ [-> Ha]]]].
  destruct (writes_after_init (all_writes input items)) as [Hw Hm].
  rewrite Hw, Hm in *.
  assert (Hnd : NoDup (map fst (apply_writes (all_writes input items) []))).
  { apply apply_writes_NoDup. constructor. }
  unfold assemble in Ha. injection Ha as -> ->. simpl.
  unfold xyziValues. rewrite !length_map.
  rewrite (nodup_fixed_point key_eq_dec Hnd), length_map.
  rewrite <- apply_writes_length.
  repeat split; try lia. exact Hnd.
Qed.

(** ** Overwriting *)

(** C6.  For every sequence of calls of [addVoxel], from any state: the map
    then holds, at every coordinate, the colour of the last call addressed to
    it (or its former entry when there is none), so of two writes to one
    coordinate only the later value is kept; and in a run of the flow the
    final colour at a coordinate is that of the last write to it in the order
    shape, content, anchor. *)
Theorem last_write_wins :
  (forall (ws : list Write) (s : State) (k : Key),
      exists s',
        forEach ws (fun w => let '(px, py, pz, c) := w in addVoxel px py pz c) s
        = Some (tt, s')
        /\ map_get k (voxelMap s')
           = match last_write k ws with
             | Some w => Some (write_color w)
             | None => map_get k (voxelMap s)
             end)
  /\ (forall (s : State) (px py pz c1 c2 : Z),
        exists s',
          (addVoxel px py pz c1 ;; addVoxel px py pz c2) s = Some (tt, s')
          /\ map_get (toInt32 px, toInt32 py, toInt32 pz) (voxelMap s')
             = Some c2
          /\ (NoDup (map fst (voxelMap s)) -> NoDup (map fst (voxelMap s'))))
  /\ (forall (input : SignToVoxInput) vo out s items (k : Key),
        run pf input = Some (vo, out, s) ->
        contentItems pf input = Some items ->
        map_get k (voxelMap s)
        = option_map write_color
            (last_write k
               (shape_writes input
                ++ content_writes input items (startX input items)
                ++ [(0, 0, 0, 2)]))).
Proof.
  split; [|split].
  - intros ws s k.
    assert (E : emits (forEach ws (fun w => let '(px, py, pz, c) := w in
                                            addVoxel px py pz c))
                      tt (flat_map (fun w => [w]) ws)).
    { apply emits_forEach. intros [[[px py] pz] c]. apply emits_addVoxel. }
    replace (flat_map (fun w => [w]) ws) with ws in E
      by (clear; induction ws; simpl; congruence).
    eexists. split; [apply E|]. simpl. apply map_get_apply_writes.
  - intros s px py pz c1 c2.
    eexists. split; [reflexivity|]. simpl. split.
    + apply map_get_set_same.
    + intros Hnd.
      apply (apply_writes_NoDup [(px, py, pz, c1); (px, py, pz, c2)] _ Hnd).
  - intros input vo out s items k H Hc.
    apply run_inv in H. destruct H as [_ [items' [Hc' [-> _]]]].
    rewrite Hc in Hc'. injection Hc' as <-.
    destruct (writes_after_init (all_writes input items)) as [_ ->].
    rewrite map_get_apply_writes. unfold all_writes, anchor.
    destruct (last_write k _); reflexivity.
Qed.

(** ** Encoder *)

(** C7.  In every run that returns, the XYZI record carries, for each entry
    [(x, y, z) -> i] of the final map and in the order of the map, the record
    [(x, z, y, i)], and the SIZE triple is (width, depth, height). *)
Theorem encoder_swaps_axes (input : SignToVoxInput) vo out s :
  run pf input = Some (vo, out, s) ->
  values (xyzi vo)
  = map (fun e => let '((x, y, z), i) := e in
                  {| vx := x; vy := z; vz := y; vi := i |}) (voxelMap s)
  /\ size vo = {| size_x := out_width out; size_y := out_depth out;
                  size_z := out_height out |}
  /\ voxSize out = size vo.
Proof.
  intros H. apply run_inv in H. destruct H as [_ [items [_ [-> Ha]]]].
  unfold assemble in Ha. injection Ha as -> ->. simpl.
  repeat split. unfold xyziValues. rewrite map_map.
  apply map_ext. intros [[[x y] z] i]. reflexivity.
Qed.

(** ** Dimensions *)

(** C9.  In every run that returns, the depth is 32, the size triple is
    (signWidth, 32, signHeight); for a hanging sign the width is
    [hangingWidth] and the height is 16, for a standard sign they are the
    fields [width] and [height]. *)
Theorem reported_dimensions (input : SignToVoxInput) vo out s :
  run pf input = Some (vo, out, s) ->
  out_depth out = 32
  /\ voxSize out = {| size_x := out_width out; size_y := 32;
                      size_z := out_height out |}
  /\ size vo = voxSize out
  /\ (signType input = hanging ->
      out_width out = hangingWidth input /\ out_height out = 16)
  /\ (signType input = standard ->
      out_width out = width input /\ out_height out = height input).
Proof.
  intros H. apply run_inv in H. destruct H as [_ [items [_ [-> Ha]]]].
  unfold assemble in Ha. injection Ha as -> ->. simpl.
  unfold signWidth, signHeight.
  repeat split; destruct (signType input); simpl; congruence.
Qed.

End FlowProperties.

(** ** Content items *)

Lemma hasText_iff (params : SignToVoxInput) :
  hasText params = true <-> trim (text params) <> [].
Proof.
  unfold hasText. rewrite andb_true_iff, negb_true_iff, Nat.eqb_neq, Nat.ltb_lt.
  split.
  - intros [_ H] E. rewrite E in H. simpl in H. lia.
  - intros H. split.
    + intros E. apply H. apply length_zero_iff_nil in E. now rewrite E.
    + destruct (trim (text params)); [congruence | simpl; lia].
Qed.

Lemma hasIcon_iff (params : SignToVoxInput) :
  hasIcon params = true
  <-> exists ic, icon params = Some ic /\ px_pixels ic <> []
                 /\ signWithIcon params = true.
Proof.
  unfold hasIcon. destruct (icon params) as [ic|].
  - rewrite andb_true_iff, Nat.ltb_lt. split.
    + intros [Hl Hw]. exists ic. repeat split; auto.
      intros E. rewrite E in Hl. simpl in Hl. lia.
    + intros [ic' [[= <-] [Hp Hw]]]. split; [|exact Hw].
      destruct (px_pixels ic); [congruence | simpl; lia].
  - split; [discriminate | intros [ic [[=] _]]].
Qed.

Lemma iconItems_cases (params : SignToVoxInput) :
  (hasIcon params = true
   /\ exists i, iconItems params = [i] /\ item_type i = icon_item
                /\ item_width i = iconWidth params)
  \/ (hasIcon params = false /\ iconItems params = []).
Proof.
  unfold iconItems, iconWidth.
  destruct (hasIcon params) eqn:E.
  - left. split; [reflexivity|].
    unfold hasIcon in E. destruct (icon params) as [ic|]; [|discriminate].
    eexists. repeat split.
  - right. split; [reflexivity|]. now destruct (icon params).
Qed.

Section ContentProperties.

Variable pf : Platform.

Lemma textItems_cases (params : SignToVoxInput) (t : list ContentItem) :
  textItems pf params = Some t ->
  (hasText params = true
   /\ exists i, t = [i] /\ item_type i = text_item
                /\ item_width i = availableWidth params)
  \/ (hasText params = false /\ t = []).
Proof.
  unfold textItems. destruct (hasText params).
  - destruct (rasterizePixelText pf _ _) as [rt|]; [|discriminate].
    destruct (Array_fill_false _) as [arr|]; [|discriminate].
    intros [= <-]. left. split; [reflexivity|]. eexists. repeat split.
  - intros [= <-]. right. auto.
Qed.

(** The items before the optional reversal: at most one icon, then at most
    one text. *)
Lemma contentItems_shape (params : SignToVoxInput) (items : list ContentItem) :
  contentItems pf params = Some items ->
  exists ic tx,
    iconItems params = ic /\ textItems pf params = Some tx
    /\ items = if is_hanging (signType params)
                  && is_right (hangingIconPosition params)
               then rev (ic ++ tx) else ic ++ tx.
Proof.
  unfold contentItems. destruct (textItems pf params) as [tx|]; [|discriminate].
  intros [= <-]. eauto.
Qed.

(** C8.  When the content items are obtained: an icon item is among them
    iff an icon was supplied, its pixel array is not empty and [signWithIcon]
    is set; a text item is among them iff the text does not trim to the
    empty string; and when both exist the items are the icon then the text,
    except for a hanging sign with the icon on the right, where they are the
    text then the icon. *)
Theorem content_items_determined (params : SignToVoxInput)
    (items : list ContentItem) :
  contentItems pf params = Some items ->
  ((exists i, In i items /\ item_type i = icon_item)
   <-> (exists ic, icon params = Some ic /\ px_pixels ic <> []
                   /\ signWithIcon params = true))
  /\ ((exists i, In i items /\ item_type i = text_item)
      <-> trim (text params) <> [])
  /\ ((exists ic, icon params = Some ic /\ px_pixels ic <> []
                  /\ signWithIcon params = true) ->
      trim (text params) <> [] ->
      exists i t,
        item_type i = icon_item /\ item_type t = text_item
        /\ items = if is_hanging (signType params)
                      && is_right (hangingIconPosition params)
                   then [t; i] else [i; t]).
Proof.
  intros H. apply contentItems_shape in H.
  destruct H as [ic [tx [Hi [Ht ->]]]].
  rewrite <- hasIcon_iff, <- hasText_iff.
  apply textItems_cases in Ht.
  assert (Hin : forall P : ContentItem -> Prop,
             (exists i, In i (if is_hanging (signType params)
                                 && is_right (hangingIconPosition params)
                              then rev (ic ++ tx) else ic ++ tx) /\ P i)
             <-> (exists i, In i (ic ++ tx) /\ P i)).
  { intros P. destruct (_ && _); [|tauto].
    split; intros [i [Hi' HP]]; exists i; split; auto;
      [now apply in_rev | now apply in_rev in Hi']. }
  rewrite !Hin.
  destruct (iconItems_cases params) as [[Ei [i [Hic [Hti _]]]]|[Ei Hic]];
    destruct Ht as [[Et [t [-> [Htt _]]]]|[Et ->]];
    subst ic; rewrite Hic in *; rewrite Ei, Et; simpl.
  - split; [|split].
    + split; [reflexivity | intros _; exists i; simpl; auto].
    + split; [reflexivity | intros _; exists t; simpl; auto].
    + intros _ _. exists i, t. destruct (_ && _); auto.
  - split; [|split].
    + split; [reflexivity | intros _; exists i; simpl; auto].
    + split; [|discriminate]. intros [j [[<-|[]] Hj]]. congruence.
    + discriminate.
  - split; [|split].
    + split; [|discriminate]. intros [j [[<-|[]] Hj]]. congruence.
    + split; [reflexivity | intros _; exists t; simpl; auto].
    + discriminate.
  - split; [|split].
    + split; [|discriminate]. intros [j [[] _]].
    + split; [|discriminate]. intros [j [[] _]].
    + discriminate.
Qed.

End ContentProperties.

(** ** Horizontal placement *)

Lemma fold_left_sum {A} (f : A -> Z) (l : list A) (acc : Z) :
  fold_left (fun sum x => sum + f x) l acc = acc + sumZ (map f l).
Proof.
  revert acc. induction l as [|x l IH]; intros acc; simpl.
  - lia.
  - rewrite IH. lia.
Qed.

Lemma cursors_length (params : SignToVoxInput) (items : list ContentItem)
    (currentX : Z) :
  length (cursors params items currentX) = length items.
Proof.
  revert currentX. induction items as [|item rest IH]; intros c; simpl; auto.
Qed.

(** The cursor at the item of index [i] is the start plus, for each earlier
    item, its width and the spacing. *)
Lemma cursors_nth_error (params : SignToVoxInput) (items : list ContentItem)
    (currentX : Z) (i : nat) (item : ContentItem) :
  nth_error items i = Some item ->
  nth_error (cursors params items currentX) i
  = Some (currentX
          + sumZ (map (fun it => itemWidth params it + spacing)
                      (firstn i items))).
Proof.
  revert currentX i. induction items as [|it rest IH]; intros c i.
  - destruct i; discriminate.
  - destruct i as [|i]; simpl.
    + intros _. f_equal. lia.
    + intros H. rewrite (IH _ _ H). f_equal. lia.
Qed.

(** Each next cursor is the previous one advanced by the previous item's
    width and the spacing. *)
Lemma cursors_step (params : SignToVoxInput) (items : list ContentItem)
    (currentX : Z) (i : nat) (item next : ContentItem) (x : Z) :
  nth_error items i = Some item ->
  nth_error items (S i) = Some next ->
  nth_error (cursors params items currentX) i = Some x ->
  nth_error (cursors params items currentX) (S i)
  = Some (x + (itemWidth params item + spacing)).
Proof.
  revert currentX i. induction items as [|it rest IH]; intros c i.
  - destruct i; discriminate.
  - destruct i as [|i].
    + simpl. intros [= ->] Hn [= <-].
      destruct rest; [discriminate | reflexivity].
    + intros Hi Hn Hx. exact (IH _ _ Hi Hn Hx).
Qed.

Section LayoutProperties.

Variable pf : Platform.

Lemma itemWidth_effective (params : SignToVoxInput)
    (items : list ContentItem) (item : ContentItem) :
  contentItems pf params = Some items ->
  In item items ->
  itemWidth params item
  = effective_width_spec (is_hanging (signType params)) items item.
Proof.
  intros H Hin. apply contentItems_shape in H.
  destruct H as [ic [tx [Hi [Ht Hitems]]]].
  apply textItems_cases in Ht.
  unfold itemWidth, effective_width_spec.
  destruct (item_type item) eqn:Ety; [reflexivity|].
  assert (Hfind : find (fun i => is_icon (item_type i)) items
                  = if hasIcon params then hd_error ic else None).
  { destruct (iconItems_cases params) as [[Ei [i [Hic [Hti _]]]]|[Ei Hic]];
      destruct Ht as [[Et [t [-> [Htt _]]]]|[Et ->]];
      subst ic items; rewrite Hic, Ei;
      destruct (_ && _); simpl; rewrite ?Hti, ?Htt; reflexivity. }
  rewrite Hfind.
  destruct (iconItems_cases params) as [[Ei [i [Hic [_ Hw]]]]|[Ei Hic]];
    rewrite Ei; simpl; [|reflexivity].
  subst ic. rewrite Hic. simpl. rewrite Hw.
  destruct (is_hanging (signType params)); [unfold spacing; lia | reflexivity].
Qed.

(** C4.  When the content items are obtained and there is at least one:
    each item's effective width is its bitmap width, except the text item of
    a hanging sign in the presence of an icon item, which loses the icon's
    width plus 4; the total content width is the sum of the effective widths,
    plus 4 when there is more than one item; the placement loop of the flow
    paints the first item at cursor
    [pad + floor((availableWidth - totalContentWidth) / 2)] and each next
    item at the previous cursor plus the previous item's effective width
    plus 4, and ends with the cursor advanced past the last item. *)
Theorem layout_arithmetic (params : SignToVoxInput)
    (items : list ContentItem) :
  contentItems pf params = Some items ->
  items <> [] ->
  let effective := effective_width_spec (is_hanging (signType params)) items in
  let total := sumZ (map effective items)
               + (if (1 <? length items)%nat then 4 else 0) in
  let start := pad params + (availableWidth params - total) / 2 in
  (forall item, In item items -> itemWidth params item = effective item)
  /\ totalContentWidth params items = total
  /\ (exists xs,
        emits (placeItems params items (startX params items))
              (start + sumZ (map (fun it => effective it + 4) items))
              (flat_map (fun ix => item_writes params (fst ix) (snd ix))
                        (combine items xs))
        /\ length xs = length items
        /\ hd_error xs = Some start
        /\ (forall i item next x,
              nth_error items i = Some item ->
              nth_error items (S i) = Some next ->
              nth_error xs i = Some x ->
              nth_error xs (S i) = Some (x + (effective item + 4)))).
Proof.
  intros Hc Hne effective total start.
  assert (Hw : forall item, In item items -> itemWidth params item = effective item).
  { intros item Hin. now apply itemWidth_effective. }
  assert (Hmap : forall (k : Z) l, incl l items ->
             map (fun it => itemWidth params it + k) l
             = map (fun it => effective it + k) l).
  { intros k l Hl. apply map_ext_in. intros it Hit. now rewrite Hw by auto. }
  assert (Ht : totalContentWidth params items = total).
  { unfold totalContentWidth, total. rewrite fold_left_sum. simpl.
    f_equal. f_equal. apply map_ext_in. exact Hw. }
  assert (Hs : startX params items = start).
  { unfold startX, start. now rewrite Ht. }
  split; [exact Hw|]. split; [exact Ht|].
  exists (cursors params items (startX params items)).
  split; [|split; [|split]].
  - rewrite <- Hs, <- (Hmap 4 items (incl_refl _)).
    apply emits_placeItems.
  - apply cursors_length.
  - rewrite <- Hs. destruct items; [congruence | reflexivity].
  - intros i item next x Hi Hn Hx.
    rewrite <- (Hw item) by (eapply nth_error_In; eauto).
    now apply (cursors_step params items _ _ Hi Hn).
Qed.

End LayoutProperties.

(** ** Hanging backplate *)

Lemma near_corner_iff (x y cx cy radius : Z) :
  near_corner x y cx cy radius <-> sq4 (x - cx) (y - cy) <= 4 * radius ^ 2.
Proof.
  rewrite <- quarter_scaling. unfold near_corner.
  unfold Z.sub at 1 2. rewrite !inject_Z_plus, !inject_Z_opp.
  assert (E : forall u c : Z,
             (inject_Z u + (1 # 2) - inject_Z c
              == inject_Z u + - inject_Z c + (1 # 2))%Q) by (intros; ring).
  rewrite !E. reflexivity.
Qed.

Lemma isInside_iff (w h x y : Z) :
  isInside w h x y = true <-> in_rounded_rect w h x y.
Proof.
  unfold isInside, in_rounded_rect.
  rewrite !orb_true_iff, !andb_true_iff, !Z.leb_le, !Z.ltb_lt.
  rewrite !near_corner_iff. tauto.
Qed.

Lemma in_backplate_writes (params : SignToVoxInput) (x y z c : Z) :
  In (x, y, z, c) (backplate_writes params)
  <-> c = 1
      /\ 0 <= x < signWidth params /\ 0 <= y < signHeight params
      /\ zStart <= z < zStart + hangingSignThickness params
      /\ in_rounded_rect (signWidth params) (signHeight params) x y.
Proof.
  unfold backplate_writes. rewrite in_flat_map. split.
  - intros [k [Hk H]]. apply in_range in Hk. apply in_plane_writes in H.
    destruct H as [x' [y' [Hx [Hy H]]]].
    destruct (isInside _ _ x' y') eqn:E; [|destruct H].
    destruct H as [H|[]].
    assert (Hz : z = zStart + k) by congruence.
    assert (Hc : c = 1) by congruence.
    assert (Hx' : x' = x) by congruence.
    assert (Hy' : y' = y) by congruence.
    clear H. subst x' y'.
    apply isInside_iff in E. repeat split; auto; lia.
  - intros [-> [Hx [Hy [Hz H]]]]. exists (z - zStart). split.
    + apply in_range. lia.
    + apply in_plane_writes. exists x, y. repeat split; try lia.
      apply isInside_iff in H. rewrite H.
      replace (zStart + (z - zStart)) with z by lia. now left.
Qed.

Lemma in_item_writes_color (params : SignToVoxInput) (item : ContentItem)
    (currentX : Z) (w : Write) :
  In w (item_writes params item currentX) ->
  write_color w = (if is_standard (signType params) then 2 else 3)
  /\ snd (fst w) = voxelDepth.
Proof.
  unfold item_writes. rewrite in_plane_writes.
  intros [x [y [_ [_ H]]]].
  destruct (js_get _ _); [|destruct H].
  destruct H as [<-|[]]. split; reflexivity.
Qed.

Lemma in_content_writes_color (params : SignToVoxInput)
    (items : list ContentItem) (currentX : Z) (w : Write) :
  In w (content_writes params items currentX) ->
  write_color w = (if is_standard (signType params) then 2 else 3)
  /\ snd (fst w) = voxelDepth.
Proof.
  unfold content_writes. rewrite in_flat_map.
  intros [[item x] [_ H]]. exact (in_item_writes_color _ _ _ _ H).
Qed.

Section ShapeProperties.

Variable pf : Platform.

(** C5.  In every run on a hanging sign that returns, the writes of palette
    index 1 are exactly the cells of the rounded rectangle of the
    [hangingWidth] by 16 plane, repeated in each of the depth slices
    16, ..., 16 + thickness - 1: a cell is written iff it lies in one of the
    two non-corner bands or within 4 of one of the four corner centres, and
    this does not depend on the slice. *)
Theorem backplate_cross_section (input : SignToVoxInput) vo out s :
  signType input = hanging ->
  run pf input = Some (vo, out, s) ->
  forall x y z,
    In (x, y, z, 1) (writes s)
    <-> (16 <= z < 16 + hangingSignThickness input
         /\ 0 <= x < hangingWidth input /\ 0 <= y < 16
         /\ in_rounded_rect (hangingWidth input) 16 x y).
Proof.
  intros Hh H x y z. apply run_inv in H.
  destruct H as [_ [items [_ [-> _]]]].
  destruct (writes_after_init (all_writes input items)) as [-> _].
  unfold all_writes, shape_writes. rewrite Hh. simpl.
  rewrite !in_app_iff, in_backplate_writes.
  unfold signWidth, signHeight, zStart, anchor. rewrite Hh. simpl.
  split.
  - intros [H|[H|[H|[]]]].
    + tauto.
    + apply in_content_writes_color in H. rewrite Hh in H.
      simpl in H. destruct H as [H _]. discriminate.
    + discriminate.
  - intros H. left. tauto.
Qed.

End ShapeProperties.

(** ** Standard frame *)

(** What the frame loop computes: a cell is a frame cell iff it is on an edge
    band and none of the four calls of [checkCorner] holds for it. *)
Lemma isFrame_carved (params : SignToVoxInput) (x y : Z) :
  isFrame params x y = on_edge_band params x y && negb (carved params x y).
Proof.
  unfold isFrame, on_edge_band, carved.
  destruct (y <? frameWidth params), (signHeight params - frameWidth params <=? y),
    (x <? frameWidth params), (signWidth params - frameWidth params <=? x);
    simpl;
    repeat match goal with
           | |- context [checkCorner ?a ?b ?c ?d ?e] =>
               destruct (checkCorner a b c d e); simpl
           end; reflexivity.
Qed.

Lemma in_frame_writes (params : SignToVoxInput) (x y z c : Z) :
  In (x, y, z, c) (frame_writes params)
  <-> z = 15 /\ c = 2
      /\ 0 <= x < signWidth params /\ 0 <= y < signHeight params
      /\ isFrame params x y = true.
Proof.
  unfold frame_writes. rewrite in_plane_writes. split.
  - intros [x' [y' [Hx [Hy H]]]].
    destruct (isFrame params x' y') eqn:E; [|destruct H].
    destruct H as [[= -> -> <- <-]|[]]. auto.
  - intros [-> [-> [Hx [Hy H]]]]. exists x, y. rewrite H. simpl. auto.
Qed.

(** On every framed standard sign whose corner squares do not meet, the
    corner cell (0,0) belongs to the cut-out as the specification words it,
    and the frame loop keeps it. *)
Lemma corner_cell_kept (params : SignToVoxInput) :
  1 <= frameWidth params ->
  4 * frameWidth params < signWidth params ->
  4 * frameWidth params < signHeight params ->
  corner_cutout_spec (signWidth params) (signHeight params)
                     (frameWidth params) 0 0 = true
  /\ isFrame params 0 0 = true.
Proof.
  intros Hf Hw Hh. split.
  - unfold corner_cutout_spec.
    assert (E : in_square 0 0 (2 * frameWidth params) 0 0
                && outside_circle (2 * frameWidth params) (2 * frameWidth params)
                                  (2 * frameWidth params) 0 0 = true).
    { unfold in_square, outside_circle, sq4.
      rewrite !andb_true_iff, !Z.leb_le, !Z.ltb_lt. repeat split; try lia. nia. }
    rewrite E. reflexivity.
  - rewrite isFrame_carved. unfold on_edge_band, carved, checkCorner.
    assert (A1 : (Z.abs (0 - frameWidth params * 2) <? frameWidth params * 2) = false)
      by (apply Z.ltb_ge; lia).
    assert (A2 : (Z.abs (0 - (signWidth params - 1 - frameWidth params * 2))
                  <? frameWidth params * 2) = false)
      by (apply Z.ltb_ge; lia).
    assert (A3 : (0 <? frameWidth params) = true) by (apply Z.ltb_lt; lia).
    rewrite A1, A2, A3. reflexivity.
Qed.

(** ** Fields the flow ignores *)

Section Noninterference.

Variable pf : Platform.

(** Two inputs from which the shape loops, the placement and the assembly
    read the same values give the same flow. *)
Lemma flow_ext (p q : SignToVoxInput) :
  contentItems pf p = contentItems pf q ->
  shape_writes p = shape_writes q ->
  (forall item c, item_writes p item c = item_writes q item c) ->
  (forall item, itemWidth p item = itemWidth q item) ->
  pad p = pad q -> availableWidth p = availableWidth q ->
  (forall m, assemble pf p m = assemble pf q m) ->
  flow pf p init_state = flow pf q init_state.
Proof.
  intros Hc Hs Hi Hw Hpad Hav Ha.
  rewrite !flow_init, <- Hc.
  destruct (contentItems pf p) as [items|]; [|reflexivity].
  assert (Hcur : forall l c, cursors p l c = cursors q l c).
  { induction l as [|it l IH]; intros c; simpl; [reflexivity|].
    now rewrite IH, Hw. }
  assert (Hall : all_writes p items = all_writes q items).
  { unfold all_writes, content_writes, startX, totalContentWidth.
    rewrite Hs, Hpad, Hav, !fold_left_sum, Hcur.
    rewrite (map_ext _ _ Hw).
    do 2 f_equal. apply flat_map_ext. intros [it c]. apply Hi. }
  simpl. now rewrite Hall, Ha.
Qed.

Ltac same_run :=
  unfold run, parse; simpl;
  match goal with |- context [if ?c then _ else _] => destruct c end;
  [apply flow_ext; reflexivity | reflexivity].

Lemma run_without_offsetY (p : SignToVoxInput) :
  signType p = hanging -> run pf p = run pf (without_offsetY p).
Proof.
  destruct p; simpl. intros ->. same_run.
Qed.

Lemma run_without_hangingOffsetX (p : SignToVoxInput) :
  signType p = standard -> run pf p = run pf (without_hangingOffsetX p).
Proof.
  destruct p; simpl. intros ->. same_run.
Qed.

Lemma run_without_iconScale (p : SignToVoxInput) :
  run pf p = run pf (without_iconScale p).
Proof.
  destruct p. same_run.
Qed.

(** C10.  Two hanging signs that differ only in [signIconOffsetY] and
    [textOffsetY] give the same result; two standard signs that differ only
    in [hangingSignIconOffsetX] and [hangingSignTextOffsetX] give the same
    result; and two inputs that differ only in [signIconScale] give the same
    result, whatever the sign type. *)
Theorem ignored_fields (p q : SignToVoxInput) :
  (signType p = hanging -> without_offsetY p = without_offsetY q ->
   generateSignToVoxFlow pf p = generateSignToVoxFlow pf q)
  /\ ((signType p = standard ->
       without_hangingOffsetX p = without_hangingOffsetX q ->
       generateSignToVoxFlow pf p = generateSignToVoxFlow pf q)
      /\ (without_iconScale p = without_iconScale q ->
          generateSignToVoxFlow pf p = generateSignToVoxFlow pf q)).
Proof.
  unfold generateSignToVoxFlow. split; [|split].
  - intros Hp E.
    assert (Hq : signType q = hanging).
    { apply (f_equal signType) in E. simpl in E. congruence. }
    now rewrite (run_without_offsetY p Hp), (run_without_offsetY q Hq), E.
  - intros Hp E.
    assert (Hq : signType q = standard).
    { apply (f_equal signType) in E. simpl in E. congruence. }
    now rewrite (run_without_hangingOffsetX p Hp),
                (run_without_hangingOffsetX q Hq), E.
  - intros E.
    now rewrite (run_without_iconScale p), (run_without_iconScale q), E.
Qed.

End Noninterference.

(** * The frame on an example *)

Lemma returns_Some {A} (o : option A) :
  returns o = true -> exists x, o = Some x.
Proof.
  destruct o as [x|]; [eauto | discriminate].
Qed.

(** C3.  On the 48 by 40 sign with frame width 2, whatever the platform, the
    frame loop departs from the corner cut-out of the specification in both
    directions.  The corner cell (0,0) lies in the top-left corner square of
    side 4 and farther than 4 from the rounding centre (4,4), so it
    satisfies the cut-out; [checkCorner] does not hold for it, the loop writes it at plane
    15 with palette index 2, and the final map holds that voxel.  The cell
    (7,1) lies in the top edge band and in no corner square, so it does not
    satisfy the cut-out; [checkCorner] holds for it and the final map has no
    voxel there. *)
Theorem frame_corner_cell_written (pf : Platform) :
  (corner_cutout_spec 48 40 2 0 0 = true
   /\ carved example_frame 0 0 = false
   /\ isFrame example_frame 0 0 = true)
  /\ (on_edge_band example_frame 7 1 = true
      /\ corner_cutout_spec 48 40 2 7 1 = false
      /\ carved example_frame 7 1 = true
      /\ isFrame example_frame 7 1 = false)
  /\ exists vo out s,
       run pf example_frame = Some (vo, out, s)
       /\ In (0, 0, 15, 2) (writes s)
       /\ map_get (0, 0, 15) (voxelMap s) = Some 2
       /\ map_get (7, 1, 15) (voxelMap s) = None.
Proof.
  split; [repeat split|]. split; [repeat split|].
  destruct (@run_total pf example_frame [] eq_refl eq_refl)
    as [vo [out [s E]]].
  exists vo, out, s. split; [exact E|].
  apply run_inv in E. destruct E as [_ [items [Hc [-> _]]]].
  injection Hc as <-.
  destruct (writes_after_init (all_writes example_frame [])) as [-> ->].
  split; [|split].
  - unfold all_writes. apply in_or_app. left.
    change (shape_writes example_frame) with (frame_writes example_frame).
    apply in_frame_writes. repeat split; try reflexivity; vm_compute; congruence.
  - rewrite map_get_apply_writes. vm_compute. reflexivity.
  - rewrite map_get_apply_writes. vm_compute. reflexivity.
Qed.

(** * The theorems on the examples *)

Lemma example_standard_returns :
  returns (run example_platform example_standard) = true.
Proof. vm_compute. reflexivity. Qed.

Lemma example_hanging_returns :
  returns (run example_platform example_hanging) = true.
Proof. vm_compute. reflexivity. Qed.

Lemma example_hanging_items :
  returns (contentItems example_platform example_hanging) = true.
Proof. vm_compute. reflexivity. Qed.

Lemma anchor_written_last_witness :
  exists vo out s,
    run example_platform example_standard = Some (vo, out, s)
    /\ last (writes s) (1, 1, 1, 1) = (0, 0, 0, 2)
    /\ map_get (0, 0, 0) (voxelMap s) = Some 2.
Proof.
  destruct (returns_Some _ example_standard_returns) as [[[vo out] s] E].
  exists vo, out, s. split; [exact E|].
  destruct (anchor_written_last example_platform example_standard E)
    as [items [_ [_ [Hl [_ Hg]]]]].
  split; assumption.
Defined.

Lemma totalVoxels_excludes_anchor_witness :
  exists vo out s,
    run example_platform example_hanging = Some (vo, out, s)
    /\ totalVoxels out
       = Z.of_nat (length (nodup key_eq_dec (map fst (voxelMap s)))) - 1
    /\ numVoxels (xyzi vo) = totalVoxels out + 1.
Proof.
  destruct (returns_Some _ example_hanging_returns) as [[[vo out] s] E].
  exists vo, out, s. split; [exact E|].
  destruct (totalVoxels_excludes_anchor example_platform example_hanging E)
    as [_ [Ht [_ [Hn _]]]].
  split; assumption.
Defined.

Lemma layout_arithmetic_witness :
  exists items,
    contentItems example_platform example_hanging = Some items
    /\ items <> []
    /\ totalContentWidth example_hanging items
       = sumZ (map (effective_width_spec true items) items)
         + (if (1 <? length items)%nat then 4 else 0).
Proof.
  destruct (returns_Some _ example_hanging_items) as [items E].
  assert (Hne : items <> []).
  { intros ->. vm_compute in E. discriminate E. }
  exists items. split; [exact E|]. split; [exact Hne|].
  exact (proj1 (proj2 (layout_arithmetic example_platform example_hanging
                         E Hne))).
Defined.

Lemma backplate_cross_section_witness :
  exists vo out s,
    run example_platform example_hanging = Some (vo, out, s)
    /\ In (4, 0, 17, 1) (writes s)
    /\ ~ In (0, 0, 17, 1) (writes s).
Proof.
  destruct (returns_Some _ example_hanging_returns) as [[[vo out] s] E].
  exists vo, out, s. split; [exact E|].
  pose proof (backplate_cross_section example_platform example_hanging
                eq_refl E) as H.
  split.
  - apply H. simpl. repeat split; try lia. left. lia.
  - intros Hin. apply H in Hin. destruct Hin as [_ [_ [_ Hr]]].
    unfold in_rounded_rect in Hr. rewrite !near_corner_iff in Hr.
    unfold sq4 in Hr. simpl in Hr. lia.
Defined.

Lemma last_write_wins_witness :
  exists vo out s items,
    run example_platform example_standard = Some (vo, out, s)
    /\ contentItems example_platform example_standard = Some items
    /\ map_get (0, 0, 15) (voxelMap s)
       = option_map write_color
           (last_write (0, 0, 15)
              (shape_writes example_standard
               ++ content_writes example_standard items
                    (startX example_standard items)
               ++ [(0, 0, 0, 2)])).
Proof.
  destruct (returns_Some _ example_standard_returns) as [[[vo out] s] E].
  destruct (run_inv example_platform example_standard E)
    as [_ [items [Ec _]]].
  exists vo, out, s, items. split; [exact E|]. split; [exact Ec|].
  exact (proj2 (proj2 (last_write_wins example_platform))
           example_standard vo out s items (0, 0, 15) E Ec).
Defined.

Lemma encoder_swaps_axes_witness :
  exists vo out s,
    run example_platform example_hanging = Some (vo, out, s)
    /\ size vo = {| size_x := out_width out; size_y := out_depth out;
                    size_z := out_height out |}
    /\ values (xyzi vo)
       = map (fun e => let '((x, y, z), i) := e in
                       {| vx := x; vy := z; vz := y; vi := i |}) (voxelMap s).
Proof.
  destruct (returns_Some _ example_hanging_returns) as [[[vo out] s] E].
  exists vo, out, s. split; [exact E|].
  destruct (encoder_swaps_axes example_platform example_hanging E)
    as [Hv [Hs _]].
  split; assumption.
Defined.

Lemma content_items_determined_witness :
  exists i t,
    contentItems example_platform example_hanging = Some [i; t]
    /\ item_type i = icon_item /\ item_type t = text_item.
Proof.
  destruct (returns_Some _ example_hanging_items) as [items E].
  destruct (content_items_determined example_platform example_hanging E)
    as [_ [_ H]].
  assert (Hi : exists ic, icon example_hanging = Some ic
                          /\ px_pixels ic <> []
                          /\ signWithIcon example_hanging = true).
  { eexists. split; [reflexivity|]. split; [discriminate | reflexivity]. }
  assert (Ht : trim (text example_hanging) <> []).
  { vm_compute. discriminate. }
  destruct (H Hi Ht) as [i [t [Hti [Htt Hit]]]].
  exists i, t. rewrite E, Hit. auto.
Defined.

Lemma reported_dimensions_witness :
  exists vo out s,
    run example_platform example_hanging = Some (vo, out, s)
    /\ out_depth out = 32 /\ out_width out = 48 /\ out_height out = 16.
Proof.
  destruct (returns_Some _ example_hanging_returns) as [[[vo out] s] E].
  exists vo, out, s. split; [exact E|].
  destruct (reported_dimensions example_platform example_hanging E)
    as [Hd [_ [_ [Hh _]]]].
  destruct (Hh eq_refl) as [Hw Hht]. auto.
Defined.

Lemma ignored_fields_witness :
  generateSignToVoxFlow example_platform example_hanging
  = generateSignToVoxFlow example_platform example_hanging_moved
  /\ generateSignToVoxFlow example_platform example_standard
     = generateSignToVoxFlow example_platform example_standard_moved
  /\ generateSignToVoxFlow example_platform example_standard
     = generateSignToVoxFlow example_platform example_standard_scaled.
Proof.
  split; [|split].
  - apply (proj1 (ignored_fields example_platform example_hanging
                    example_hanging_moved)); reflexivity.
  - apply (proj1 (proj2 (ignored_fields example_platform example_standard
                           example_standard_moved))); reflexivity.
  - apply (proj2 (proj2 (ignored_fields example_platform example_standard
                           example_standard_scaled))); reflexivity.
Defined.

(** * Further properties of the flow *)

(** ** Entries of the map and writes of a run *)

Lemma last_write_In (k : Key) (ws : list Write) (w : Write) :
  last_write k ws = Some w -> In w ws /\ write_key w = k.
Proof.
  unfold last_write. intros H. apply find_some in H. destruct H as [Hin Hk].
  apply in_rev in Hin. apply key_eqb_eq in Hk. auto.
Qed.

Lemma last_write_None (k : Key) (ws : list Write) :
  last_write k ws = None <-> ~ In k (map write_key ws).
Proof.
  unfold last_write. split.
  - intros H Hin. apply in_map_iff in Hin. destruct Hin as [w [Hk Hin]].
    apply in_rev in Hin.
    pose proof (find_none _ _ H w Hin) as Hf. simpl in Hf.
    rewrite <- Hk, key_eqb_refl in Hf. discriminate.
  - intros H. destruct (find _ (rev ws)) as [w|] eqn:E; [|reflexivity].
    exfalso. apply H. apply find_some in E. destruct E as [Hin Hk].
    apply in_rev in Hin. apply key_eqb_eq in Hk. subst k.
    now apply in_map.
Qed.

Lemma in_map_get (m : VoxelMap) (k : Key) (v : Z) :
  NoDup (map fst m) -> (In (k, v) m <-> map_get k m = Some v).
Proof.
  induction m as [|[k' v'] m IH]; simpl; intros Hnd.
  - split; [intros [] | discriminate].
  - inversion Hnd as [|? ? Hnin Hnd']; subst.
    destruct (key_eqb k k') eqn:E.
    + apply key_eqb_eq in E. subst k'. split.
      * intros [[= ->]|Hin]; [reflexivity|].
        exfalso. apply Hnin. apply (in_map fst) in Hin. exact Hin.
      * intros [= ->]. now left.
    + apply key_eqb_neq in E. rewrite <- (IH Hnd'). split.
      * intros [[= -> ->]|Hin]; [congruence | exact Hin].
      * intros Hin. now right.
Qed.

(** An entry of the map built by a log is the last write to its key. *)
Lemma in_apply_writes (ws : list Write) (k : Key) (v : Z) :
  In (k, v) (apply_writes ws [])
  <-> exists w, last_write k ws = Some w /\ write_color w = v.
Proof.
  rewrite in_map_get by (apply apply_writes_NoDup; constructor).
  rewrite map_get_apply_writes. simpl.
  destruct (last_write k ws) as [w|]; split.
  - intros [= <-]. eauto.
  - intros [w' [[= <-] <-]]. reflexivity.
  - discriminate.
  - intros [w' [[=] _]].
Qed.

Lemma in_shape_writes (params : SignToVoxInput) (w : Write) :
  In w (shape_writes params) ->
  (signType params = standard /\ frame params = true
   /\ In w (frame_writes params))
  \/ (signType params = hanging /\ In w (backplate_writes params)).
Proof.
  unfold shape_writes.
  destruct (signType params); simpl.
  - destruct (frame params); [auto | intros []].
  - auto.
Qed.

(** The writes of a run, by phase. *)
Lemma in_all_writes (params : SignToVoxInput) (items : list ContentItem)
    (px py pz c : Z) :
  In (px, py, pz, c) (all_writes params items) ->
  (signType params = standard /\ frame params = true /\ pz = 15 /\ c = 2
   /\ 0 <= px < signWidth params /\ 0 <= py < signHeight params
   /\ isFrame params px py = true)
  \/ (signType params = hanging /\ c = 1
      /\ 0 <= px < signWidth params /\ 0 <= py < signHeight params
      /\ zStart <= pz < zStart + hangingSignThickness params)
  \/ (pz = 15 /\ c = if is_standard (signType params) then 2 else 3)
  \/ (px, py, pz, c) = (0, 0, 0, 2).
Proof.
  unfold all_writes. rewrite !in_app_iff.
  intros [H|[H|[H|[]]]].
  - apply in_shape_writes in H. destruct H as [[Hs [Hf H]]|[Hh H]].
    + apply in_frame_writes in H. left. tauto.
    + apply in_backplate_writes in H. right; left. tauto.
  - apply in_content_writes_color in H. simpl in H. right; right; left.
    destruct H as [Hc Hz]. auto.
  - right; right; right. symmetry. exact H.
Qed.

Section RunProperties.

Variable pf : Platform.


(** X2.  A framed standard sign whose frame is wider than half the sign has
    a negative [availableWidth]; with a non-blank text of positive height
    the allocation of the combined bitmap throws, and the flow returns
    nothing. *)
Theorem oversized_frame_throws (input : SignToVoxInput) (rt : RasterizedText) :
  signType input = standard ->
  frame input = true ->
  width input < 2 * frameWidth input ->
  trim (text input) <> [] ->
  rasterizePixelText pf (toUpperCase pf (text input)) (availableWidth input)
  = Some rt ->
  0 < totalHeight rt ->
  generateSignToVoxFlow pf input = None.
Proof.
  intros Hs Hf Hw Ht Hr Hh.
  unfold generateSignToVoxFlow, run.
  destruct (parse input) as [params|] eqn:Ep; [|reflexivity].
  assert (params = input).
  { unfold parse in Ep. destruct (_ && _); congruence. }
  subst params. rewrite flow_init.
  unfold contentItems, textItems.
  apply hasText_iff in Ht. rewrite Ht, Hr.
  assert (Ha : availableWidth input * totalHeight rt < 0).
  { unfold availableWidth, signWidth, pad. rewrite Hs, Hf. simpl. nia. }
  unfold Array_fill_false.
  assert (E : (0 <=? availableWidth input * totalHeight rt) = false)
    by (apply Z.leb_gt; exact Ha).
  rewrite E. reflexivity.
Qed.


(** X4.  In every run that returns, each entry of the final map holds
    palette index 1, 2 or 3: always 2 on a standard sign; on a hanging sign
    1 or 3, or 2 at the anchor's coordinate only. *)
Theorem palette_indices_used (input : SignToVoxInput) vo out s :
  run pf input = Some (vo, out, s) ->
  forall k v,
    In (k, v) (voxelMap s) ->
    (signType input = standard -> v = 2)
    /\ (signType input = hanging -> v = 1 \/ v = 3 \/ (v = 2 /\ k = (0, 0, 0))).
Proof.
  intros H k v Hin. apply run_inv in H.
  destruct H as [_ [items [_ [-> _]]]].
  destruct (writes_after_init (all_writes input items)) as [_ Hm].
  rewrite Hm in Hin. apply in_apply_writes in Hin.
  destruct Hin as [[[[px py] pz] c] [Hl Hc]]. simpl in Hc. subst c.
  apply last_write_In in Hl. destruct Hl as [Hin Hk].
  apply in_all_writes in Hin.
  destruct Hin as [[Hs [_ [_ [-> _]]]]|[[Hh [-> _]]|[[_ ->]|E]]].
  - split; [reflexivity | congruence].
  - split; [congruence | auto].
  - split; intros E; rewrite E; simpl; auto.
  - injection E as -> -> -> ->. simpl in Hk. subst k.
    split; [reflexivity|]. intros _. right; right. split; reflexivity.
Qed.

(** X5.  In every run that returns, no two XYZI records share a position,
    and every coordinate of a record is a signed 32-bit integer. *)
Theorem records_have_distinct_positions (input : SignToVoxInput) vo out s :
  run pf input = Some (vo, out, s) ->
  NoDup (map (fun v => (vx v, vy v, vz v)) (values (xyzi vo)))
  /\ forall v, In v (values (xyzi vo)) ->
       - 2 ^ 31 <= vx v < 2 ^ 31 /\ - 2 ^ 31 <= vy v < 2 ^ 31
       /\ - 2 ^ 31 <= vz v < 2 ^ 31.
Proof.
  intros H. apply run_inv in H. destruct H as [_ [items [_ [-> Ha]]]].
  unfold assemble in Ha. injection Ha as -> _. simpl.
  unfold xyziValues. rewrite !map_map.
  set (ws := all_writes input items).
  assert (Hnd : NoDup (map fst (apply_writes ws []))).
  { apply apply_writes_NoDup. constructor. }
  split.
  - replace (map _ (apply_writes ws []))
      with (map (fun k : Key => let '(x, y, z) := k in (x, z, y))
                (map fst (apply_writes ws []))).
    + apply Finite.Injective_map_NoDup; [|exact Hnd].
      intros [[x y] z] [[x' y'] z'] [= -> -> ->]. reflexivity.
    + rewrite map_map. apply map_ext. intros [[[x y] z] i]. reflexivity.
  - intros v Hv. apply in_map_iff in Hv.
    destruct Hv as [[[[x y] z] i] [<- Hin]]. simpl.
    apply in_apply_writes in Hin. destruct Hin as [w [Hl _]].
    apply last_write_In in Hl. destruct Hl as [_ Hk].
    destruct w as [[[px py] pz] c]. simpl in Hk. injection Hk as <- <- <-.
    pose proof (toInt32_range px). pose proof (toInt32_range py).
    pose proof (toInt32_range pz). lia.
Qed.

End RunProperties.

(** ** Depth, and the map where the backplate is *)

Lemma map_set_length (k : Key) (v : Z) (m : VoxelMap) :
  length (map_set k v m)
  = if in_dec key_eq_dec k (map fst m) then length m else S (length m).
Proof.
  rewrite <- (length_map fst (map_set k v m)), map_set_keys.
  destruct (in_dec key_eq_dec k (map fst m)).
  - apply length_map.
  - rewrite length_app, length_map. simpl. lia.
Qed.

Lemma nodup_length_keys (ws : list Write) :
  length (nodup key_eq_dec (map write_key ws)) = length (apply_writes ws []).
Proof.
  symmetry. apply apply_writes_length.
Qed.

Section BoxProperties.

Variable pf : Platform.

(** X6.  In every run that returns, with a thickness of at most 16 on a
    hanging sign, the depth of every XYZI record (its second component, after
    the exchange of axes) lies within the declared depth: it is 0, 15, or
    between 16 and 31. *)
Theorem depth_within_declared_size (input : SignToVoxInput) vo out s :
  run pf input = Some (vo, out, s) ->
  (signType input = hanging -> hangingSignThickness input <= 16) ->
  forall v, In v (values (xyzi vo)) -> 0 <= vy v < size_y (size vo).
Proof.
  intros H Ht v Hv. apply run_inv in H.
  destruct H as [_ [items [_ [-> Ha]]]].
  unfold assemble in Ha. injection Ha as -> _. simpl in *.
  unfold xyziValues in Hv. rewrite map_map in Hv. apply in_map_iff in Hv.
  destruct Hv as [[[[x y] z] i] [<- Hin]]. simpl.
  apply in_apply_writes in Hin. destruct Hin as [[[[px py] pz] c] [Hl _]].
  apply last_write_In in Hl. destruct Hl as [Hin Hk].
  simpl in Hk. injection Hk as <- <- <-.
  apply in_all_writes in Hin. unfold modelDepth, zStart in *.
  assert (Hz : 0 <= pz < 32).
  { destruct Hin as [[_ [_ [-> _]]]|[[Hh [_ [_ [_ Hz]]]]|[[-> _]|E]]];
      [lia | specialize (Ht Hh); lia | lia | injection E as _ _ -> _; lia]. }
  rewrite toInt32_small; lia.
Qed.

(** X7.  On a hanging sign of width at least 9 and thickness at least 17,
    every run that returns emits an XYZI record at depth 32, outside the
    declared depth of 32. *)
Theorem thick_backplate_exceeds_depth (input : SignToVoxInput) vo out s :
  run pf input = Some (vo, out, s) ->
  signType input = hanging ->
  9 <= hangingWidth input ->
  17 <= hangingSignThickness input ->
  size_y (size vo) = 32
  /\ exists v, In v (values (xyzi vo)) /\ vx v = 4 /\ vy v = 32 /\ vz v = 0.
Proof.
  intros H Hh Hw Ht. apply run_inv in H.
  destruct H as [_ [items [_ [-> Ha]]]].
  unfold assemble in Ha. injection Ha as -> _. simpl.
  split; [reflexivity|].
  assert (Hin : In (4, 0, 32) (map fst (apply_writes (all_writes input items) []))).
  { apply apply_writes_keys. right.
    change (4, 0, 32) with (write_key (4, 0, 32, 1)). apply in_map.
    unfold all_writes, shape_writes. rewrite Hh. simpl.
    apply in_or_app. left. apply in_backplate_writes.
    unfold signWidth, signHeight, zStart. rewrite Hh. cbn [is_hanging].
    split; [reflexivity|]. split; [lia|]. split; [lia|]. split; [lia|].
    left. lia. }
  apply in_map_iff in Hin. destruct Hin as [[[[x y] z] i] [Hk Hin]].
  simpl in Hk. injection Hk as -> -> ->.
  exists {| vx := 4; vy := 32; vz := 0; vi := i |}. split; [|auto].
  unfold xyziValues. rewrite map_map. apply in_map_iff.
  exists ((4, 0, 32), i). auto.
Qed.

(** X8.  On a hanging sign whose width and thickness keep the coordinates
    within 32 bits, the final map holds palette index 1 exactly at the cells
    of the backplate: the content, painted at depth 15, never replaces a
    backplate voxel. *)
Theorem backplate_survives (input : SignToVoxInput) vo out s :
  run pf input = Some (vo, out, s) ->
  signType input = hanging ->
  hangingWidth input <= 2 ^ 31 ->
  hangingSignThickness input <= 2 ^ 31 - 16 ->
  forall x y z,
    map_get (x, y, z) (voxelMap s) = Some 1
    <-> (16 <= z < 16 + hangingSignThickness input
         /\ 0 <= x < hangingWidth input /\ 0 <= y < 16
         /\ in_rounded_rect (hangingWidth input) 16 x y).
Proof.
  intros H Hh Hw Ht x y z. apply run_inv in H.
  destruct H as [_ [items [_ [-> _]]]].
  destruct (writes_after_init (all_writes input items)) as [_ ->].
  rewrite map_get_apply_writes. cbn [map_get].
  assert (Hback : forall px py pz,
             In (px, py, pz, 1) (all_writes input items)
             <-> (16 <= pz < 16 + hangingSignThickness input
                  /\ 0 <= px < hangingWidth input /\ 0 <= py < 16
                  /\ in_rounded_rect (hangingWidth input) 16 px py)).
  { intros px py pz. unfold all_writes, shape_writes. rewrite Hh.
    cbn [is_standard is_hanging andb].
    rewrite !in_app_iff, in_backplate_writes.
    unfold signWidth, signHeight, zStart, anchor. rewrite Hh.
    cbn [is_hanging].
    split; [|intros Hr; left; tauto].
    intros [Hb|[Hc|[Ha|[]]]]; [tauto | | discriminate].
    apply in_content_writes_color in Hc. rewrite Hh in Hc.
    simpl in Hc. destruct Hc as [Hc _]. discriminate. }
  split.
  - destruct (last_write (x, y, z) (all_writes input items))
      as [[[[px py] pz] c]|] eqn:El; [|discriminate].
    intros [= ->]. apply last_write_In in El. destruct El as [Hin Hk].
    apply Hback in Hin. simpl in Hk.
    rewrite !toInt32_small in Hk by lia.
    injection Hk as <- <- <-. exact Hin.
  - intros Hr.
    destruct (last_write (x, y, z) (all_writes input items))
      as [[[[px py] pz] c]|] eqn:El.
    + apply last_write_In in El. destruct El as [Hin Hk]. simpl in Hk.
      injection Hk as Hx Hy Hz.
      apply in_all_writes in Hin. unfold zStart in Hin.
      destruct Hin as [[Hs _]|[[_ [-> _]]|[[-> _]|E]]].
      * congruence.
      * reflexivity.
      * rewrite toInt32_small in Hz by lia. lia.
      * injection E as _ _ -> _. rewrite toInt32_small in Hz by lia. lia.
    + exfalso. apply last_write_None in El. apply El.
      apply in_map_iff. exists (x, y, z, 1). split.
      * simpl. rewrite !toInt32_small by lia. reflexivity.
      * apply Hback. exact Hr.
Qed.

(** X9.  When the thickness keeps the depth within 32 bits, no shape or
    content voxel lies at the anchor's coordinate, so [totalVoxels] is
    exactly the number of distinct positions written by the shape and the
    content. *)
Theorem totalVoxels_counts_shape_and_content (input : SignToVoxInput)
    vo out s :
  run pf input = Some (vo, out, s) ->
  hangingSignThickness input <= 2 ^ 31 - 16 ->
  exists items,
    contentItems pf input = Some items
    /\ totalVoxels out
       = Z.of_nat (length (nodup key_eq_dec
                     (map write_key
                        (shape_writes input
                         ++ content_writes input items (startX input items))))).
Proof.
  intros H Ht. apply run_inv in H.
  destruct H as [_ [items [Hc [-> Ha]]]].
  exists items. split; [exact Hc|].
  unfold assemble in Ha. injection Ha as _ ->. simpl.
  unfold xyziValues. rewrite length_map.
  set (l := shape_writes input
            ++ content_writes input items (startX input items)).
  assert (E : all_writes input items = l ++ [anchor]).
  { unfold all_writes, l. now rewrite app_assoc. }
  rewrite E, apply_writes_app. cbn [apply_writes].
  change (write_key anchor) with ((0, 0, 0) : Key).
  rewrite map_set_length, nodup_length_keys.
  destruct (in_dec key_eq_dec (0, 0, 0) (map fst (apply_writes l [])))
    as [Hin|Hnin]; [|lia].
  exfalso. apply apply_writes_keys in Hin. destruct Hin as [[]|Hin].
  apply in_map_iff in Hin. destruct Hin as [[[[px py] pz] c] [Hk Hin]].
  simpl in Hk. injection Hk as _ _ Hz.
  unfold l in Hin. apply in_app_or in Hin. destruct Hin as [Hin|Hin].
  - apply in_shape_writes in Hin. destruct Hin as [[_ [_ Hin]]|[_ Hin]].
    + apply in_frame_writes in Hin. destruct Hin as [-> _]. discriminate Hz.
    + apply in_backplate_writes in Hin. unfold zStart in Hin.
      rewrite toInt32_small in Hz by lia. lia.
  - apply in_content_writes_color in Hin. simpl in Hin.
    destruct Hin as [_ ->]. discriminate Hz.
Qed.

End BoxProperties.

(** ** The frame and the backplate as shapes *)

Lemma checkCorner_off_x (x y cx cy radius : Z) :
  radius <= Z.abs (x - cx) -> checkCorner x y cx cy radius = false.
Proof.
  intros H. unfold checkCorner.
  assert (E : (Z.abs (x - cx) <? radius) = false) by (apply Z.ltb_ge; exact H).
  rewrite E. reflexivity.
Qed.

Lemma checkCorner_off_y (x y cx cy radius : Z) :
  radius <= Z.abs (y - cy) -> checkCorner x y cx cy radius = false.
Proof.
  intros H. unfold checkCorner.
  assert (E : (Z.abs (y - cy) <? radius) = false) by (apply Z.ltb_ge; exact H).
  rewrite E, andb_false_r. reflexivity.
Qed.

(** With radius 2, [checkCorner] holds at one cell only: the one diagonally
    after the centre. *)
Lemma checkCorner_radius_2 (x y cx cy : Z) :
  checkCorner x y cx cy 2 = true <-> x = cx + 1 /\ y = cy + 1.
Proof.
  unfold checkCorner, sq4.
  rewrite !andb_true_iff, !Z.ltb_lt. split.
  - intros [[Hx Hy] Hd].
    assert (Dx : x - cx = -1 \/ x - cx = 0 \/ x - cx = 1) by lia.
    assert (Dy : y - cy = -1 \/ y - cy = 0 \/ y - cy = 1) by lia.
    destruct Dx as [Dx|[Dx|Dx]], Dy as [Dy|[Dy|Dy]];
      rewrite Dx, Dy in Hd; simpl in Hd; lia.
  - intros [-> ->].
    replace (cx + 1 - cx) with 1 by lia. replace (cy + 1 - cy) with 1 by lia.
    simpl. lia.
Qed.

(** X10.  On a framed standard sign whose width and height exceed four
    times the frame width, the frame loop writes every cell of the outermost
    ring of the plane (first and last row, first and last column): the
    corner carving never reaches it. *)
Theorem frame_outer_ring_complete (params : SignToVoxInput) :
  signType params = standard ->
  frame params = true ->
  1 <= frameWidth params ->
  4 * frameWidth params < width params ->
  4 * frameWidth params < height params ->
  exists ws,
    emits (shape params) tt ws
    /\ forall x y,
         0 <= x < width params -> 0 <= y < height params ->
         x = 0 \/ x = width params - 1 \/ y = 0 \/ y = height params - 1 ->
         In (x, y, 15, 2) ws.
Proof.
  intros Hs Hf Hfw Hw Hh. exists (shape_writes params).
  split; [apply emits_shape|].
  intros x y Hx Hy Hring. unfold shape_writes. rewrite Hs, Hf. simpl.
  apply in_frame_writes.
  assert (HW : signWidth params = width params)
    by (unfold signWidth; rewrite Hs; reflexivity).
  assert (HH : signHeight params = height params)
    by (unfold signHeight; rewrite Hs; reflexivity).
  rewrite HW, HH. repeat split; try lia.
  rewrite isFrame_carved. apply andb_true_iff. split.
  - unfold on_edge_band. rewrite HW, HH.
    rewrite !orb_true_iff, !Z.ltb_lt, !Z.leb_le. lia.
  - apply negb_true_iff. unfold carved. rewrite HW, HH.
    destruct Hring as [-> | [-> | [-> | ->]]].
    + rewrite !(checkCorner_off_x 0) by lia. reflexivity.
    + rewrite !(checkCorner_off_x (width params - 1)) by lia. reflexivity.
    + rewrite !(checkCorner_off_y x 0) by lia. reflexivity.
    + rewrite !(checkCorner_off_y x (height params - 1)) by lia. reflexivity.
Qed.

(** X11.  With frame width 1 the corner carving has no effect: on a sign
    that passes the schema the frame loop writes exactly the one-cell border
    of the plane, corners included. *)
Theorem unit_frame_is_plain_border (params : SignToVoxInput) :
  parse params = Some params ->
  signType params = standard ->
  frame params = true ->
  frameWidth params = 1 ->
  exists ws,
    emits (shape params) tt ws
    /\ forall x y z c,
         In (x, y, z, c) ws
         <-> z = 15 /\ c = 2
             /\ 0 <= x < width params /\ 0 <= y < height params
             /\ (x = 0 \/ x = width params - 1
                 \/ y = 0 \/ y = height params - 1).
Proof.
  intros Hp Hs Hf Hfw. exists (shape_writes params).
  split; [apply emits_shape|].
  assert (Hv : 16 <= width params /\ 16 <= height params).
  { unfold parse in Hp.
    destruct ((16 <=? width params) && (16 <=? height params)
              && (1 <=? frameWidth params)
              && (1 <=? hangingSignThickness params)) eqn:E; [|discriminate].
    rewrite !andb_true_iff, !Z.leb_le in E. lia. }
  assert (HW : signWidth params = width params)
    by (unfold signWidth; rewrite Hs; reflexivity).
  assert (HH : signHeight params = height params)
    by (unfold signHeight; rewrite Hs; reflexivity).
  intros x y z c. unfold shape_writes. rewrite Hs, Hf. simpl.
  rewrite in_frame_writes, HW, HH, isFrame_carved.
  assert (Hband : on_edge_band params x y = true
                  <-> (y < 1 \/ height params - 1 <= y
                       \/ x < 1 \/ width params - 1 <= x)).
  { unfold on_edge_band. rewrite HW, HH, Hfw.
    rewrite !orb_true_iff, !Z.ltb_lt, !Z.leb_le. tauto. }
  assert (Hcarve : carved params x y = true ->
                   3 <= x <= width params - 2 /\ 3 <= y <= height params - 2).
  { unfold carved. rewrite HW, HH, Hfw. simpl (1 * 2).
    rewrite !orb_true_iff, !checkCorner_radius_2. lia. }
  rewrite andb_true_iff, negb_true_iff. split.
  - intros [-> [-> [Hx [Hy [Hb _]]]]]. apply Hband in Hb.
    repeat split; try lia.
  - intros [-> [-> [Hx [Hy Hr]]]]. repeat split; try lia.
    + apply Hband. lia.
    + destruct (carved params x y); [|reflexivity].
      specialize (Hcarve eq_refl). lia.
Qed.

Lemma sq4_mirror (dx dy : Z) : sq4 (- 1 - dx) dy = sq4 dx dy.
Proof. unfold sq4. ring. Qed.

Lemma sq4_swap (dx dy : Z) : sq4 dx dy = sq4 dy dx.
Proof. unfold sq4. ring. Qed.

(** The backplate test is unchanged by the mirror images of the plane. *)
Lemma isInside_mirror (w h x y : Z) :
  isInside w h (w - 1 - x) y = isInside w h x y
  /\ isInside w h x (h - 1 - y) = isInside w h x y.
Proof.
  assert (Ex : forall c, w - 1 - x - c = - 1 - (x - (w - c))) by (intros; ring).
  assert (Ey : forall c, h - 1 - y - c = - 1 - (y - (h - c))) by (intros; ring).
  assert (Ex' : forall c, w - 1 - x - (w - c) = - 1 - (x - c)) by (intros; ring).
  assert (Ey' : forall c, h - 1 - y - (h - c) = - 1 - (y - c)) by (intros; ring).
  split; apply eq_true_iff_eq; unfold isInside;
    rewrite !orb_true_iff, !andb_true_iff, !Z.leb_le, !Z.ltb_lt.
  - rewrite Ex, !Ex', !sq4_mirror. lia.
  - rewrite !(sq4_swap _ (h - 1 - y - _)), Ey, !Ey', !sq4_mirror.
    rewrite !(sq4_swap (y - _)). lia.
Qed.

Section SymmetryProperties.

Variable pf : Platform.

(** X12.  The backplate is symmetric: in every run on a hanging sign that
    returns, a cell is written with palette index 1 iff its mirror image in
    the vertical axis of the plane is, and iff its mirror image in the
    horizontal axis is. *)
Theorem backplate_is_symmetric (input : SignToVoxInput) vo out s :
  run pf input = Some (vo, out, s) ->
  signType input = hanging ->
  forall x y z,
    (In (x, y, z, 1) (writes s)
     <-> In (hangingWidth input - 1 - x, y, z, 1) (writes s))
    /\ (In (x, y, z, 1) (writes s) <-> In (x, 15 - y, z, 1) (writes s)).
Proof.
  intros H Hh x y z. apply run_inv in H.
  destruct H as [_ [items [_ [-> _]]]].
  destruct (writes_after_init (all_writes input items)) as [-> _].
  assert (Hback : forall px py,
             In (px, py, z, 1) (all_writes input items)
             <-> (zStart <= z < zStart + hangingSignThickness input
                  /\ 0 <= px < hangingWidth input /\ 0 <= py < 16
                  /\ isInside (hangingWidth input) 16 px py = true)).
  { intros px py. unfold all_writes, shape_writes. rewrite Hh.
    cbn [is_standard is_hanging andb].
    rewrite !in_app_iff, in_backplate_writes, <- isInside_iff.
    unfold signWidth, signHeight, anchor. rewrite Hh. cbn [is_hanging].
    split; [|intros Hr; left; tauto].
    intros [Hb|[Hc|[Ha|[]]]]; [tauto | | discriminate].
    apply in_content_writes_color in Hc. rewrite Hh in Hc.
    simpl in Hc. destruct Hc as [Hc _]. discriminate. }
  rewrite !Hback.
  destruct (isInside_mirror (hangingWidth input) 16 x y) as [Ex Ey].
  change (15 - y) with (16 - 1 - y). rewrite Ex, Ey.
  split; split; intros [Hz [Hx [Hy Hi]]]; repeat split; (lia || exact Hi).
Qed.

End SymmetryProperties.

(** ** Painting and placement *)



Lemma content_writes_single (params : SignToVoxInput) (item : ContentItem)
    (currentX : Z) :
  content_writes params [item] currentX = item_writes params item currentX.
Proof.
  unfold content_writes. simpl. apply app_nil_r.
Qed.

Lemma content_writes_pair (params : SignToVoxInput) (i1 i2 : ContentItem)
    (currentX : Z) :
  content_writes params [i1; i2] currentX
  = item_writes params i1 currentX
    ++ item_writes params i2 (currentX + (itemWidth params i1 + spacing)).
Proof.
  unfold content_writes. simpl. now rewrite app_nil_r.
Qed.

Section PlacementProperties.

Variable pf : Platform.

(** X14.  On a hanging sign with both an icon and a text, the content fills
    the available width exactly, so the first item is painted at cursor 2
    (the padding); with the icon on the left the text bitmap follows at
    [6 + iconWidth], and with the icon on the right the icon follows at
    [hangingWidth - 2 - iconWidth], flush with the right padding. *)
Theorem hanging_pair_placement (params : SignToVoxInput)
    (items : list ContentItem) :
  signType params = hanging ->
  contentItems pf params = Some items ->
  hasIcon params = true ->
  trim (text params) <> [] ->
  totalContentWidth params items = availableWidth params
  /\ exists first second final,
       items = [first; second]
       /\ item_type first
          = (if is_right (hangingIconPosition params)
             then text_item else icon_item)
       /\ emits (placeItems params items (startX params items)) final
                (item_writes params first 2
                 ++ item_writes params second
                      (if is_right (hangingIconPosition params)
                       then hangingWidth params - 2 - iconWidth params
                       else 6 + iconWidth params)).
Proof.
  intros Hh Hc Hi Ht.
  pose proof (emits_placeItems params items (startX params items)) as Hem.
  apply contentItems_shape in Hc. destruct Hc as [ic [tx [Hic [Htx Hitems]]]].
  apply textItems_cases in Htx. apply hasText_iff in Ht.
  destruct Htx as [[_ [t [-> [Htt Htw]]]]|[Ef _]]; [|congruence].
  destruct (iconItems_cases params) as [[_ [i [Ei [Hit Hiw]]]]|[Ef _]];
    [|congruence].
  rewrite Ei in Hic. subst ic. rewrite Hh in Hitems. simpl in Hitems.
  assert (Wi : itemWidth params i = iconWidth params).
  { unfold itemWidth. rewrite Hit. exact Hiw. }
  assert (Wt : itemWidth params t
               = availableWidth params - iconWidth params - 4).
  { unfold itemWidth. rewrite Htt, Hi, Hh, Htw. reflexivity. }
  assert (Hav : availableWidth params = hangingWidth params - 4).
  { unfold availableWidth, signWidth, pad. rewrite Hh. simpl. lia. }
  assert (Hpad : pad params = 2).
  { unfold pad. rewrite Hh. reflexivity. }
  destruct (is_right (hangingIconPosition params)); subst items.
  - assert (Htot : totalContentWidth params [t; i] = availableWidth params).
    { unfold totalContentWidth, spacing. simpl. rewrite Wi, Wt. lia. }
    assert (Hst : startX params [t; i] = 2).
    { unfold startX. rewrite Htot, Hpad, Z.sub_diag. reflexivity. }
    split; [exact Htot|]. exists t, i. eexists.
    split; [reflexivity|]. split; [exact Htt|].
    rewrite content_writes_pair, Hst, Wt, Hav in Hem.
    replace (2 + (hangingWidth params - 4 - iconWidth params - 4 + spacing))
      with (hangingWidth params - 2 - iconWidth params) in Hem
      by (unfold spacing; lia).
    rewrite Hst. exact Hem.
  - assert (Htot : totalContentWidth params [i; t] = availableWidth params).
    { unfold totalContentWidth, spacing. simpl. rewrite Wi, Wt. lia. }
    assert (Hst : startX params [i; t] = 2).
    { unfold startX. rewrite Htot, Hpad, Z.sub_diag. reflexivity. }
    split; [exact Htot|]. exists i, t. eexists.
    split; [reflexivity|]. split; [exact Hit|].
    rewrite content_writes_pair, Hst, Wi in Hem.
    replace (2 + (iconWidth params + spacing)) with (6 + iconWidth params)
      in Hem by (unfold spacing; lia).
    rewrite Hst. exact Hem.
Qed.

(** X15.  A single content item is centred in the available width: it is
    painted at cursor [pad + floor((availableWidth - width) / 2)]; a text
    item, whose bitmap has the available width, is painted at the padding. *)
Theorem single_item_centred (params : SignToVoxInput) (item : ContentItem) :
  contentItems pf params = Some [item] ->
  exists final,
    emits (placeItems params [item] (startX params [item])) final
          (item_writes params item
             (pad params + (availableWidth params - item_width item) / 2))
    /\ (item_type item = text_item ->
        pad params + (availableWidth params - item_width item) / 2
        = pad params).
Proof.
  intros Hc.
  pose proof (emits_placeItems params [item] (startX params [item])) as Hem.
  apply contentItems_shape in Hc. destruct Hc as [ic [tx [Hic [Htx Hitems]]]].
  apply textItems_cases in Htx.
  assert (Hone : ic ++ tx = [item]).
  { destruct (_ && _); [|congruence].
    apply (f_equal (@rev ContentItem)) in Hitems.
    rewrite rev_involutive in Hitems. now rewrite <- Hitems. }
  assert (Hw : itemWidth params item = item_width item
               /\ (item_type item = text_item ->
                   item_width item = availableWidth params)).
  { destruct (iconItems_cases params) as [[_ [i [Ei [Hit _]]]]|[Ei En]];
      rewrite Hic in *.
    - destruct Htx as [[_ [t [-> _]]]|[_ ->]]; rewrite Ei in Hone;
        [discriminate|].
      injection Hone as <-. unfold itemWidth. rewrite Hit.
      split; [reflexivity | discriminate].
    - rewrite En in Hone.
      destruct Htx as [[_ [t [-> [Htt Htw]]]]|[_ ->]]; [|discriminate].
      injection Hone as <-. unfold itemWidth. rewrite Htt, Ei.
      split; [reflexivity | intros _; exact Htw]. }
  destruct Hw as [Hw Htext].
  assert (Hst : startX params [item]
               = pad params + (availableWidth params - item_width item) / 2).
  { unfold startX, totalContentWidth. simpl. rewrite Hw, Z.add_0_r.
    reflexivity. }
  eexists. split.
  - rewrite content_writes_single, Hst in Hem. rewrite Hst. exact Hem.
  - intros Hty. rewrite (Htext Hty), Z.sub_diag. change (0 / 2) with 0. lia.
Qed.

(** X16.  The vertical offset carried by the icon bitmap itself is never
    used: two inputs that differ only in it give the same result. *)
Theorem icon_own_offset_ignored (p q : SignToVoxInput) :
  without_icon_offsetY p = without_icon_offsetY q ->
  generateSignToVoxFlow pf p = generateSignToVoxFlow pf q.
Proof.
  assert (E : forall r, run pf r = run pf (without_icon_offsetY r)).
  { intros r. destruct r as [st w h f fw hw hp ht hx htx ic tx sc oy ty wi].
    destruct ic as [[px pw ph po]|];
      unfold run, parse; simpl;
      match goal with |- context [if ?c then _ else _] => destruct c end;
      [apply flow_ext; reflexivity | reflexivity
      |apply flow_ext; reflexivity | reflexivity]. }
  intros H. unfold generateSignToVoxFlow. now rewrite (E p), (E q), H.
Qed.

(** X17.  On a hanging sign the fields [width], [height], [frame] and
    [frameWidth] are only validated: two hanging signs that pass the schema
    and differ only in them give the same result. *)
Theorem hanging_ignores_standard_fields (p q : SignToVoxInput) :
  signType p = hanging ->
  parse p = Some p -> parse q = Some q ->
  without_standard_fields p = without_standard_fields q ->
  generateSignToVoxFlow pf p = generateSignToVoxFlow pf q.
Proof.
  assert (E : forall r, signType r = hanging -> parse r = Some r ->
                        run pf r = run pf (without_standard_fields r)).
  { intros r Hr Hp.
    assert (Hp' : parse (without_standard_fields r)
                  = Some (without_standard_fields r)).
    { unfold parse in *. simpl.
      destruct ((16 <=? width r) && (16 <=? height r) && (1 <=? frameWidth r))
        ; simpl in Hp; [|discriminate].
      destruct (1 <=? hangingSignThickness r); [reflexivity | discriminate]. }
    unfold run. rewrite Hp, Hp'.
    destruct r as [st w h f fw hw hp ht hx htx ic tx sc oy ty wi].
    simpl in Hr. subst st. apply flow_ext; reflexivity. }
  intros Hh Hp Hq H.
  assert (Hq' : signType q = hanging).
  { apply (f_equal signType) in H. simpl in H. congruence. }
  unfold generateSignToVoxFlow. now rewrite (E p Hh Hp), (E q Hq' Hq), H.
Qed.

(** X18.  On a standard sign the fields of the hanging sign
    ([hangingWidth], the icon position, the thickness and the two horizontal
    offsets) are only validated: two standard signs that pass the schema and
    differ only in them give the same result. *)
Theorem standard_ignores_hanging_fields (p q : SignToVoxInput) :
  signType p = standard ->
  parse p = Some p -> parse q = Some q ->
  without_hanging_fields p = without_hanging_fields q ->
  generateSignToVoxFlow pf p = generateSignToVoxFlow pf q.
Proof.
  assert (E : forall r, signType r = standard -> parse r = Some r ->
                        run pf r = run pf (without_hanging_fields r)).
  { intros r Hr Hp.
    assert (Hp' : parse (without_hanging_fields r)
                  = Some (without_hanging_fields r)).
    { unfold parse in *. simpl.
      destruct ((16 <=? width r) && (16 <=? height r) && (1 <=? frameWidth r))
        ; simpl in Hp; [reflexivity | discriminate]. }
    unfold run. rewrite Hp, Hp'.
    destruct r as [st w h f fw hw hp ht hx htx ic tx sc oy ty wi].
    simpl in Hr. subst st. apply flow_ext; reflexivity. }
  intros Hh Hp Hq H.
  assert (Hq' : signType q = standard).
  { apply (f_equal signType) in H. simpl in H. congruence. }
  unfold generateSignToVoxFlow. now rewrite (E p Hh Hp), (E q Hq' Hq), H.
Qed.

(** X19.  In every run that returns, the palette handed to the writer has
    256 entries, and the palette index of every XYZI record addresses an
    opaque entry of it (alpha 255). *)
Theorem records_use_opaque_colors (input : SignToVoxInput) vo out s :
  run pf input = Some (vo, out, s) ->
  length (rgba vo) = 256%nat
  /\ forall v, In v (values (xyzi vo)) ->
       a (nth (Z.to_nat (vi v)) (rgba vo)
              {| r := 0; g := 0; b := 0; a := 0 |}) = 255.
Proof.
  intros H. apply run_inv in H. destruct H as [_ [items [_ [-> Ha]]]].
  unfold assemble in Ha. injection Ha as -> _. simpl.
  split; [reflexivity|].
  intros v Hv. unfold xyziValues in Hv. rewrite map_map in Hv.
  apply in_map_iff in Hv. destruct Hv as [[[[x y] z] i] [<- Hin]]. simpl.
  apply in_apply_writes in Hin. destruct Hin as [[[[px py] pz] c] [Hl Hc]].
  simpl in Hc. subst c.
  apply last_write_In in Hl. destruct Hl as [Hin _].
  apply in_all_writes in Hin.
  destruct Hin as [[_ [_ [_ [-> _]]]]|[[_ [-> _]]|[[_ ->]|E]]].
  - reflexivity.
  - reflexivity.
  - destruct (is_standard (signType input)); reflexivity.
  - injection E as _ _ _ ->. reflexivity.
Qed.

End PlacementProperties.

(** ** The combined text bitmap *)

Lemma nth_set_nth (n : nat) (arr : jsarray) (j : nat) :
  nth j (set_nth n arr) false = (j =? n)%nat || nth j arr false.
Proof.
  revert arr j. induction n as [|n IH]; intros arr j.
  - destruct arr as [|b0 arr], j as [|j]; simpl; try reflexivity.
    now destruct j.
  - destruct arr as [|b0 arr], j as [|j]; simpl; try reflexivity.
    + rewrite IH. now destruct j.
    + apply IH.
Qed.

(** Reading an array after [a[i] = true]. *)
Lemma js_get_set_true (arr : jsarray) (i j : Z) :
  js_get (js_set_true arr i) j
  = js_get arr j || ((j =? i) && ((0 <=? i) && (i <? 2 ^ 32 - 1))).
Proof.
  unfold js_set_true, js_get.
  destruct (Z.ltb_spec i 0) as [Hi|Hi];
    destruct (Z.leb_spec (2 ^ 32 - 1) i) as [Hb|Hb];
    destruct (Z.leb_spec 0 i) as [H0|H0];
    destruct (Z.ltb_spec i (2 ^ 32 - 1)) as [H1|H1]; try lia;
    cbn [orb andb]; rewrite ?andb_false_r, ?orb_false_r, ?andb_true_r;
    try reflexivity.
  destruct (Z.ltb_spec j 0) as [Hj|Hj].
  - destruct (Z.eqb_spec j i); [lia | reflexivity].
  - rewrite nth_set_nth, orb_comm. f_equal.
    destruct (Z.eqb_spec j i) as [->|Hne].
    + apply Nat.eqb_refl.
    + apply Nat.eqb_neq. lia.
Qed.

Lemma fold_left_js_get {A} (step : jsarray -> A -> jsarray)
    (hit : A -> Z -> bool) :
  (forall arr i j, js_get (step arr i) j = js_get arr j || hit i j) ->
  forall l arr j,
    js_get (fold_left step l arr) j
    = js_get arr j || existsb (fun i => hit i j) l.
Proof.
  intros Hstep l. induction l as [|i l IH]; intros arr j; simpl.
  - now rewrite orb_false_r.
  - rewrite IH, Hstep, orb_assoc. reflexivity.
Qed.

Lemma js_get_drawLine (availableWidth currentY : Z) (line : TextLine)
    (arr : jsarray) (j : Z) :
  js_get (drawLine availableWidth currentY line arr) j = true
  <-> js_get arr j = true
      \/ exists x y, line_pixel_at availableWidth currentY line x y j.
Proof.
  unfold drawLine.
  set (idx := fun y x => (currentY + y) * availableWidth
                         + ((availableWidth - line_width line) / 2 + x)).
  set (hit := fun y x j =>
                js_get (line_pixels line) (y * line_width line + x)
                && ((j =? idx y x)
                    && ((0 <=? idx y x) && (idx y x <? 2 ^ 32 - 1)))).
  rewrite (fold_left_js_get
             (fun arr y =>
                fold_left (fun arr x =>
                  if js_get (line_pixels line) (y * line_width line + x)
                  then js_set_true arr (idx y x) else arr)
                  (range 0 (line_width line)) arr)
             (fun y j => existsb (fun x => hit y x j)
                                 (range 0 (line_width line)))).
  - rewrite orb_true_iff, existsb_exists.
    apply or_iff_compat_l. split.
    + intros [y [Hy H]]. apply existsb_exists in H. destruct H as [x [Hx H]].
      apply in_range in Hx, Hy. unfold hit in H.
      rewrite !andb_true_iff, Z.eqb_eq, Z.leb_le, Z.ltb_lt in H.
      exists x, y. unfold line_pixel_at. unfold idx in H.
      destruct H as [Hp [Hj [H0 H1]]]. repeat split; try lia; auto.
    + intros [x [y [Hx [Hy [Hp [Hj Hb]]]]]]. exists y.
      split; [apply in_range; lia|]. apply existsb_exists. exists x.
      split; [apply in_range; lia|]. unfold hit.
      rewrite !andb_true_iff, Z.eqb_eq, Z.leb_le, Z.ltb_lt. unfold idx.
      repeat split; try lia; auto.
  - intros arr0 y j0.
    apply (fold_left_js_get
             (fun arr x =>
                if js_get (line_pixels line) (y * line_width line + x)
                then js_set_true arr (idx y x) else arr)
             (fun x j => hit y x j)).
    intros arr1 x j1. unfold hit.
    destruct (js_get (line_pixels line) (y * line_width line + x)); simpl.
    + apply js_get_set_true.
    + now rewrite orb_false_r.
Qed.

Lemma js_get_drawLines (availableWidth : Z) (ls : list TextLine)
    (currentY : Z) (arr : jsarray) (j : Z) :
  js_get (drawLines availableWidth ls currentY arr) j = true
  <-> js_get arr j = true
      \/ exists k line x y,
           nth_error ls k = Some line
           /\ line_pixel_at availableWidth
                (currentY
                 + sumZ (map (fun l => line_height l + 1) (firstn k ls)))
                line x y j.
Proof.
  revert currentY arr. induction ls as [|l ls IH]; intros currentY arr; simpl.
  - split; [auto|]. intros [H|[k [line [x [y [H _]]]]]]; [exact H|].
    destruct k; discriminate.
  - rewrite IH, js_get_drawLine. split.
    + intros [[H|[x [y H]]]|[k [line [x [y [Hk H]]]]]].
      * now left.
      * right. exists 0%nat, l, x, y. split; [reflexivity|].
        simpl. now rewrite Z.add_0_r.
      * right. exists (S k), line, x, y. split; [exact Hk|].
        replace (currentY
                 + sumZ (map (fun l0 => line_height l0 + 1)
                             (firstn (S k) (l :: ls))))
          with (currentY + line_height l + 1
                + sumZ (map (fun l0 => line_height l0 + 1) (firstn k ls)))
          by (simpl; lia).
        exact H.
    + intros [H|[k [line [x [y [Hk H]]]]]]; [now left; left|].
      destruct k as [|k].
      * simpl in Hk, H. injection Hk as <-. rewrite Z.add_0_r in H.
        left; right. eauto.
      * right. exists k, line, x, y. split; [exact Hk|].
        replace (currentY
                 + sumZ (map (fun l0 => line_height l0 + 1)
                             (firstn (S k) (l :: ls))))
          with (currentY + line_height l + 1
                + sumZ (map (fun l0 => line_height l0 + 1) (firstn k ls)))
          in H by (simpl; lia).
        exact H.
Qed.

Lemma js_get_repeat_false (n : nat) (j : Z) : js_get (repeat false n) j = false.
Proof.
  unfold js_get. destruct (j <? 0); [reflexivity|].
  destruct (nth_in_or_default (Z.to_nat j) (repeat false n) false) as [H|H].
  - now apply repeat_spec in H.
  - exact H.
Qed.

Section TextProperties.

Variable pf : Platform.

(** X20.  The text item has the available width and the total height the
    rasteriser reports, and an element of its bitmap is set exactly when it
    is the image of a set pixel of one of the rasterised lines: line [k] is
    drawn with its first row below the earlier lines and one spare row after
    each, and starts at column [floor((availableWidth - line width) / 2)]. *)
Theorem text_bitmap_pixels (params : SignToVoxInput) (item : ContentItem) :
  textItems pf params = Some [item] ->
  exists rt,
    rasterizePixelText pf (toUpperCase pf (text params)) (availableWidth params)
    = Some rt
    /\ item_type item = text_item
    /\ item_width item = availableWidth params
    /\ item_height item = totalHeight rt
    /\ forall j,
         js_get (item_pixels item) j = true
         <-> exists k line x y,
               nth_error (lines rt) k = Some line
               /\ 0 <= x < line_width line /\ 0 <= y < line_height line
               /\ js_get (line_pixels line) (y * line_width line + x) = true
               /\ j = (sumZ (map (fun l => line_height l + 1)
                                 (firstn k (lines rt))) + y)
                      * availableWidth params
                      + ((availableWidth params - line_width line) / 2 + x)
               /\ 0 <= j < 2 ^ 32 - 1.
Proof.
  unfold textItems. destruct (hasText params); [|discriminate].
  destruct (rasterizePixelText pf _ _) as [rt|]; [|discriminate].
  unfold Array_fill_false. destruct (_ && _); [|discriminate].
  intros [= <-]. exists rt. simpl. repeat split.
  - intros H. apply js_get_drawLines in H.
    rewrite js_get_repeat_false in H.
    destruct H as [H|[k [line [x [y [Hk H]]]]]]; [discriminate|].
    exists k, line, x, y. exact (conj Hk H).
  - intros [k [line [x [y [Hk H]]]]]. apply js_get_drawLines. right.
    exists k, line, x, y. exact (conj Hk H).
Qed.

End TextProperties.

(** * Properties of the sign form *)

(** X21.  The width the form scales the icon against is the flow's
    available width.  The height it bounds the vertical offsets with is the
    flow's available height on framed standard signs and on hanging signs,
    and 4 less than it on unframed standard signs. *)
Theorem form_content_box (input : SignToVoxInput) :
  contentWidth input = availableWidth input
  /\ currentContentHeight input
     = (if is_standard (signType input) && negb (frame input)
        then availableHeight input - 4 else availableHeight input).
Proof.
  unfold contentWidth, currentContentHeight, availableWidth, availableHeight,
    signWidth, signHeight, pad.
  destruct (signType input), (frame input); simpl; lia.
Qed.

Lemma pushAlpha_spec (data : list Z) (n : nat) :
  length data = (4 * n)%nat ->
  forall (m fuel : nat) (pixels : jsarray),
    (m <= n)%nat -> (m <= fuel)%nat ->
    pushAlpha fuel (Z.of_nat (4 * (n - m))) data pixels
    = pixels ++ map (fun k => above_128 data (Z.of_nat (4 * k + 3)))
                    (seq (n - m) m).
Proof.
  intros Hlen. induction m as [|m IH]; intros fuel pixels Hm Hf.
  - cbn [seq map]. rewrite app_nil_r. replace (n - 0)%nat with n by lia.
    destruct fuel; [reflexivity|]. cbn [pushAlpha].
    assert (E : (Z.of_nat (4 * n) <? Z.of_nat (length data)) = false)
      by (apply Z.ltb_ge; lia).
    now rewrite E.
  - destruct fuel as [|fuel]; [lia|]. cbn [pushAlpha].
    assert (E : (Z.of_nat (4 * (n - S m)) <? Z.of_nat (length data)) = true)
      by (apply Z.ltb_lt; lia).
    rewrite E.
    replace (Z.of_nat (4 * (n - S m)) + 4) with (Z.of_nat (4 * (n - m)))
      by lia.
    rewrite IH by lia. rewrite <- app_assoc. f_equal.
    replace (n - m)%nat with (S (n - S m)) by lia. cbn [seq map app].
    f_equal. f_equal. lia.
Qed.

(** X22.  On image data of [4 * n] bytes the threshold loop yields one
    boolean per pixel, [n] in all, and pixel [k] is set iff its alpha byte
    (at index [4 * k + 3]) is above 128; an alpha of exactly 128 counts as
    transparent. *)
Theorem alphaPixels_threshold (data : list Z) (n : nat) :
  length data = (4 * n)%nat ->
  length (alphaPixels data) = n
  /\ forall k, (k < n)%nat ->
       nth k (alphaPixels data) false = (128 <? nth (4 * k + 3) data 0).
Proof.
  intros Hlen.
  assert (E : alphaPixels data
              = map (fun k => above_128 data (Z.of_nat (4 * k + 3))) (seq 0 n)).
  { unfold alphaPixels.
    pose proof (@pushAlpha_spec data n Hlen n (length data) [] (le_n n))
      as H.
    replace (n - n)%nat with 0%nat in H by lia. simpl in H.
    apply H. lia. }
  rewrite E. split.
  - now rewrite length_map, length_seq.
  - intros k Hk.
    rewrite (nth_indep _ false (above_128 data (Z.of_nat (4 * 0 + 3))))
      by (rewrite length_map, length_seq; exact Hk).
    rewrite (map_nth (fun k => above_128 data (Z.of_nat (4 * k + 3)))).
    rewrite seq_nth by exact Hk. simpl (0 + k)%nat.
    unfold above_128. rewrite Nat2Z.id.
    destruct (nth_error data (4 * k + 3)) as [v|] eqn:En.
    + now rewrite (nth_error_nth _ _ 0 En).
    + apply nth_error_None in En. lia.
Qed.

(** * Further behaviour of the flow *)

Lemma toInt32_wrap (n k : Z) : toInt32 (n + 2 ^ 32 * k) = toInt32 n.
Proof.
  unfold toInt32.
  replace (n + 2 ^ 32 * k + 2 ^ 31) with (n + 2 ^ 31 + k * 2 ^ 32) by ring.
  now rewrite Z.mod_add by lia.
Qed.

Lemma map_get_In_keys (k : Key) (m : VoxelMap) (v : Z) :
  map_get k m = Some v -> In k (map fst m).
Proof.
  induction m as [|[k' v'] m IH]; cbn [map_get map fst In]; [discriminate|].
  destruct (key_eqb k k') eqn:E.
  - apply key_eqb_eq in E. auto.
  - intros H. right. exact (IH H).
Qed.

(** X23.  [addVoxel] addresses the map by the coordinates reduced to 32
    bits: a coordinate within the 32-bit range is its own key, and a write
    whose coordinates differ from an earlier one by multiples of 2^32
    replaces that entry instead of adding one. *)
Theorem addVoxel_wraps_coordinates (s : State) (px py pz c1 c2 kx ky kz : Z) :
  (- 2 ^ 31 <= px < 2 ^ 31 -> - 2 ^ 31 <= py < 2 ^ 31 ->
   - 2 ^ 31 <= pz < 2 ^ 31 ->
   exists s1,
     addVoxel px py pz c1 s = Some (tt, s1)
     /\ map_get (px, py, pz) (voxelMap s1) = Some c1)
  /\ exists s1 s2,
       addVoxel px py pz c1 s = Some (tt, s1)
       /\ addVoxel (px + 2 ^ 32 * kx) (py + 2 ^ 32 * ky) (pz + 2 ^ 32 * kz)
                   c2 s1 = Some (tt, s2)
       /\ map_get (toInt32 px, toInt32 py, toInt32 pz) (voxelMap s2) = Some c2
       /\ length (voxelMap s2) = length (voxelMap s1).
Proof.
  split.
  - intros Hx Hy Hz. eexists. split; [reflexivity|]. cbn [voxelMap writes].
    rewrite !toInt32_small by assumption. apply map_get_set_same.
  - do 2 eexists. split; [reflexivity|]. split; [reflexivity|].
    cbn [voxelMap writes]. rewrite !toInt32_wrap. split; [apply map_get_set_same|].
    rewrite map_set_length.
    destruct (in_dec key_eq_dec _ _) as [_|Hn]; [reflexivity|].
    exfalso. apply Hn.
    apply (map_get_In_keys _ _ (map_get_set_same _ c1 (voxelMap s))).
Qed.

Section MoreRunProperties.

Variables pf pf' : Platform.

(** X24.  A text made only of white space is never rasterised: on such an
    input the result does not depend on the rasteriser or on [toUpperCase],
    so two platforms with the same writer and string conversions give the
    same result. *)
Theorem blank_text_skips_rasteriser (input : SignToVoxInput) :
  forallb isWhiteSpace (text input) = true ->
  writeVox pf = writeVox pf' ->
  toBase64 pf = toBase64 pf' ->
  numberToString pf = numberToString pf' ->
  generateSignToVoxFlow pf input = generateSignToVoxFlow pf' input.
Proof.
  intros Hb Hw Hb64 Hn.
  assert (Ht : hasText input = false).
  { destruct (hasText input) eqn:E; [|reflexivity].
    apply hasText_iff in E. apply trim_nil_iff in Hb. contradiction. }
  assert (Hc : contentItems pf input = contentItems pf' input).
  { unfold contentItems, textItems. now rewrite Ht. }
  assert (Ha : forall m, assemble pf input m = assemble pf' input m).
  { intros m. unfold assemble, createSchematicData. now rewrite Hw, Hb64, Hn. }
  unfold generateSignToVoxFlow, run.
  destruct (parse input) as [params|] eqn:Ep; [|reflexivity].
  assert (params = input)
    by (unfold parse in Ep; destruct (_ && _); congruence).
  subst params. rewrite !flow_init, <- Hc.
  destruct (contentItems pf input) as [items|]; [|reflexivity].
  cbv zeta. now rewrite Ha.
Qed.

(** X25.  The label carries the depth exactly when a depth other than 0 is
    given: a depth of 0 gives the same two-dimensional label as no depth.
    The flow always gives the depth 32, so the label of every run that
    returns is "Schematic: VOX Sign (WxHx32)" with the numbers printed by the
    platform. *)
Theorem label_of_run (input : SignToVoxInput) vo out s :
  run pf input = Some (vo, out, s) ->
  schematicData out
  = String.append "Schematic: VOX Sign ("
      (String.append (numberToString pf (out_width out))
        (String.append "x"
          (String.append (numberToString pf (out_height out))
            (String.append "x"
              (String.append (numberToString pf (out_depth out)) ")")))))
  /\ forall name w h,
       createSchematicData pf name w h (Some 0)
       = createSchematicData pf name w h None
       /\ createSchematicData pf name w h None
          = String.append "Schematic: "
              (String.append name
                (String.append " ("
                  (String.append (numberToString pf w)
                    (String.append "x"
                      (String.append (numberToString pf h) ")"))))).
Proof.
  intros H. apply run_inv in H. destruct H as [_ [items [_ [-> Ha]]]].
  unfold assemble in Ha. injection Ha as _ ->. split; [reflexivity|].
  intros name w h. split; reflexivity.
Qed.

(** X26.  On a standard sign with both an icon and a text, the content is
    wider than the available width by the icon's width plus 4: the icon is
    painted at [pad + floor(-(iconWidth + 4) / 2)], left of the centred
    position of the text bitmap, and the text bitmap [iconWidth + 4]
    further right. *)
Theorem standard_pair_placement (params : SignToVoxInput)
    (items : list ContentItem) :
  signType params = standard ->
  contentItems pf params = Some items ->
  hasIcon params = true ->
  trim (text params) <> [] ->
  totalContentWidth params items
  = availableWidth params + iconWidth params + 4
  /\ exists i t final,
       items = [i; t]
       /\ item_type i = icon_item /\ item_type t = text_item
       /\ emits (placeItems params items (startX params items)) final
                (item_writes params i
                   (pad params + (- (iconWidth params + 4)) / 2)
                 ++ item_writes params t
                      (pad params + (- (iconWidth params + 4)) / 2
                       + (iconWidth params + 4))).
Proof.
  intros Hs Hc Hi Ht.
  pose proof (emits_placeItems params items (startX params items)) as Hem.
  apply contentItems_shape in Hc. destruct Hc as [ic [tx [Hic [Htx Hitems]]]].
  apply textItems_cases in Htx. apply hasText_iff in Ht.
  destruct Htx as [[_ [t [-> [Htt Htw]]]]|[Ef _]]; [|congruence].
  destruct (iconItems_cases params) as [[_ [i [Ei [Hit Hiw]]]]|[Ef _]];
    [|congruence].
  rewrite Ei in Hic. subst ic. rewrite Hs in Hitems. simpl in Hitems.
  subst items.
  assert (Wi : itemWidth params i = iconWidth params).
  { unfold itemWidth. rewrite Hit. exact Hiw. }
  assert (Wt : itemWidth params t = availableWidth params).
  { unfold itemWidth. rewrite Htt, Hs, andb_false_r. exact Htw. }
  assert (Htot : totalContentWidth params [i; t]
                 = availableWidth params + iconWidth params + 4).
  { unfold totalContentWidth, spacing. simpl. rewrite Wi, Wt. lia. }
  assert (Hst : startX params [i; t]
                = pad params + (- (iconWidth params + 4)) / 2).
  { unfold startX. rewrite Htot. do 2 f_equal. lia. }
  split; [exact Htot|]. exists i, t. eexists.
  split; [reflexivity|]. split; [exact Hit|]. split; [exact Htt|].
  rewrite content_writes_pair, Hst, Wi in Hem. rewrite Hst. exact Hem.
Qed.

End MoreRunProperties.

(** * The further properties on examples *)

Lemma example_standard_items :
  returns (contentItems example_platform example_standard) = true.
Proof. vm_compute. reflexivity. Qed.

Lemma example_standard_icon_items :
  returns (contentItems example_platform example_standard_icon) = true.
Proof. vm_compute. reflexivity. Qed.

Lemma example_hanging_text :
  returns (textItems example_platform example_hanging) = true.
Proof. vm_compute. reflexivity. Qed.

Lemma oversized_frame_throws_witness :
  generateSignToVoxFlow example_platform example_oversized = None.
Proof.
  eapply (oversized_frame_throws example_platform example_oversized).
  - reflexivity.
  - reflexivity.
  - simpl. lia.
  - vm_compute. discriminate.
  - reflexivity.
  - simpl. lia.
Defined.


Lemma palette_indices_used_witness :
  exists vo out s,
    run example_platform example_hanging = Some (vo, out, s)
    /\ forall k v, In (k, v) (voxelMap s) ->
         v = 1 \/ v = 3 \/ (v = 2 /\ k = (0, 0, 0)).
Proof.
  destruct (returns_Some _ example_hanging_returns) as [[[vo out] s] E].
  exists vo, out, s. split; [exact E|]. intros k v Hin.
  exact (proj2 (palette_indices_used example_platform example_hanging E k v Hin)
           eq_refl).
Defined.

Lemma records_have_distinct_positions_witness :
  exists vo out s,
    run example_platform example_hanging = Some (vo, out, s)
    /\ NoDup (map (fun v => (vx v, vy v, vz v)) (values (xyzi vo))).
Proof.
  destruct (returns_Some _ example_hanging_returns) as [[[vo out] s] E].
  exists vo, out, s. split; [exact E|].
  exact (proj1 (records_have_distinct_positions example_platform
                  example_hanging E)).
Defined.

Lemma depth_within_declared_size_witness :
  exists vo out s,
    run example_platform example_hanging = Some (vo, out, s)
    /\ forall v, In v (values (xyzi vo)) -> 0 <= vy v < size_y (size vo).
Proof.
  destruct (returns_Some _ example_hanging_returns) as [[[vo out] s] E].
  exists vo, out, s. split; [exact E|].
  apply (depth_within_declared_size example_platform example_hanging E).
  intros _. simpl. lia.
Defined.

Lemma thick_backplate_exceeds_depth_witness :
  exists vo out s,
    run example_platform example_thick = Some (vo, out, s)
    /\ size_y (size vo) = 32
    /\ exists v, In v (values (xyzi vo)) /\ vx v = 4 /\ vy v = 32 /\ vz v = 0.
Proof.
  destruct (@run_total example_platform example_thick [] eq_refl eq_refl)
    as [vo [out [s E]]].
  exists vo, out, s. split; [exact E|].
  apply (thick_backplate_exceeds_depth example_platform example_thick E);
    [reflexivity | simpl; lia | simpl; lia].
Defined.

Lemma backplate_survives_witness :
  exists vo out s,
    run example_platform example_hanging = Some (vo, out, s)
    /\ map_get (4, 0, 17) (voxelMap s) = Some 1.
Proof.
  destruct (returns_Some _ example_hanging_returns) as [[[vo out] s] E].
  exists vo, out, s. split; [exact E|].
  apply (backplate_survives example_platform example_hanging E eq_refl).
  - simpl. lia.
  - simpl. lia.
  - simpl. repeat split; try lia. left. lia.
Defined.

Lemma totalVoxels_counts_shape_and_content_witness :
  exists vo out s items,
    run example_platform example_hanging = Some (vo, out, s)
    /\ contentItems example_platform example_hanging = Some items
    /\ totalVoxels out
       = Z.of_nat (length (nodup key_eq_dec
                     (map write_key
                        (shape_writes example_hanging
                         ++ content_writes example_hanging items
                              (startX example_hanging items))))).
Proof.
  destruct (returns_Some _ example_hanging_returns) as [[[vo out] s] E].
  assert (Ht : hangingSignThickness example_hanging <= 2 ^ 31 - 16)
    by (simpl; lia).
  destruct (totalVoxels_counts_shape_and_content example_platform
              example_hanging E Ht) as [items [Hc Hn]].
  exists vo, out, s, items. auto.
Defined.

Lemma frame_outer_ring_complete_witness :
  exists ws, emits (shape example_frame) tt ws /\ In (47, 0, 15, 2) ws.
Proof.
  destruct (frame_outer_ring_complete example_frame eq_refl eq_refl
              ltac:(simpl; lia) ltac:(simpl; lia) ltac:(simpl; lia))
    as [ws [He Hr]].
  exists ws. split; [exact He|]. apply Hr; simpl; lia.
Defined.

Lemma unit_frame_is_plain_border_witness :
  exists ws,
    emits (shape example_unit_frame) tt ws
    /\ In (0, 0, 15, 2) ws /\ ~ In (3, 3, 15, 2) ws.
Proof.
  destruct (@unit_frame_is_plain_border example_unit_frame
              eq_refl eq_refl eq_refl eq_refl)
    as [ws [He Hr]].
  exists ws. split; [exact He|]. split.
  - apply Hr. simpl. lia.
  - intros Hin. apply Hr in Hin. simpl in Hin. lia.
Defined.

Lemma backplate_is_symmetric_witness :
  exists vo out s,
    run example_platform example_hanging = Some (vo, out, s)
    /\ (In (1, 1, 16, 1) (writes s) <-> In (46, 1, 16, 1) (writes s)).
Proof.
  destruct (returns_Some _ example_hanging_returns) as [[[vo out] s] E].
  exists vo, out, s. split; [exact E|].
  exact (proj1 (backplate_is_symmetric example_platform example_hanging
                  E eq_refl 1 1 16)).
Defined.

Lemma hanging_pair_placement_witness :
  exists items,
    contentItems example_platform example_hanging = Some items
    /\ totalContentWidth example_hanging items = 44.
Proof.
  destruct (returns_Some _ example_hanging_items) as [items E].
  exists items. split; [exact E|].
  assert (Ht : trim (text example_hanging) <> [])
    by (vm_compute; discriminate).
  exact (proj1 (hanging_pair_placement example_platform example_hanging
                  eq_refl E eq_refl Ht)).
Defined.

Lemma single_item_centred_witness :
  exists item final,
    contentItems example_platform example_standard = Some [item]
    /\ emits (placeItems example_standard [item]
                (startX example_standard [item])) final
             (item_writes example_standard item
                (pad example_standard
                 + (availableWidth example_standard - item_width item) / 2)).
Proof.
  destruct (returns_Some _ example_standard_items) as [items E].
  destruct items as [|item [|item' items]];
    [vm_compute in E; discriminate E | | vm_compute in E; discriminate E].
  destruct (single_item_centred example_platform example_standard E)
    as [final [He _]].
  exists item, final. auto.
Defined.

Lemma icon_own_offset_ignored_witness :
  generateSignToVoxFlow example_platform example_hanging
  = generateSignToVoxFlow example_platform example_hanging_icon_offset.
Proof.
  apply icon_own_offset_ignored. reflexivity.
Defined.

Lemma hanging_ignores_standard_fields_witness :
  generateSignToVoxFlow example_platform example_hanging
  = generateSignToVoxFlow example_platform example_hanging_resized.
Proof.
  apply hanging_ignores_standard_fields; reflexivity.
Defined.

Lemma standard_ignores_hanging_fields_witness :
  generateSignToVoxFlow example_platform example_standard
  = generateSignToVoxFlow example_platform example_standard_rehung.
Proof.
  apply standard_ignores_hanging_fields; reflexivity.
Defined.

Lemma records_use_opaque_colors_witness :
  exists vo out s,
    run example_platform example_hanging = Some (vo, out, s)
    /\ length (rgba vo) = 256%nat.
Proof.
  destruct (returns_Some _ example_hanging_returns) as [[[vo out] s] E].
  exists vo, out, s. split; [exact E|].
  exact (proj1 (records_use_opaque_colors example_platform example_hanging E)).
Defined.

Lemma text_bitmap_pixels_witness :
  exists item,
    textItems example_platform example_hanging = Some [item]
    /\ item_width item = 44 /\ item_type item = text_item.
Proof.
  destruct (returns_Some _ example_hanging_text) as [items E].
  destruct items as [|item [|item' items]];
    [vm_compute in E; discriminate E | | vm_compute in E; discriminate E].
  destruct (text_bitmap_pixels example_platform example_hanging E)
    as [rt [_ [Hty [Hw _]]]].
  exists item. auto.
Defined.

Lemma alphaPixels_threshold_witness :
  length (alphaPixels [10; 20; 30; 255; 10; 20; 30; 128]) = 2%nat.
Proof.
  exact (proj1 (alphaPixels_threshold [10; 20; 30; 255; 10; 20; 30; 128]
                  2 eq_refl)).
Defined.

Lemma blank_text_skips_rasteriser_witness :
  generateSignToVoxFlow example_platform example_empty
  = generateSignToVoxFlow example_platform_rejecting example_empty.
Proof.
  apply blank_text_skips_rasteriser; reflexivity.
Defined.

Lemma label_of_run_witness :
  exists vo out s,
    run example_platform example_hanging = Some (vo, out, s)
    /\ schematicData out
       = String.append "Schematic: VOX Sign ("
           (String.append (numberToString example_platform (out_width out))
             (String.append "x"
               (String.append (numberToString example_platform (out_height out))
                 (String.append "x"
                   (String.append
                      (numberToString example_platform (out_depth out))
                      ")"))))).
Proof.
  destruct (returns_Some _ example_hanging_returns) as [[[vo out] s] E].
  exists vo, out, s. split; [exact E|].
  exact (proj1 (label_of_run example_platform example_hanging E)).
Defined.

Lemma standard_pair_placement_witness :
  exists items,
    contentItems example_platform example_standard_icon = Some items
    /\ totalContentWidth example_standard_icon items = 52.
Proof.
  destruct (returns_Some _ example_standard_icon_items) as [items E].
  exists items. split; [exact E|].
  assert (Ht : trim (text example_standard_icon) <> [])
    by (vm_compute; discriminate).
  exact (proj1 (standard_pair_placement example_platform
                  example_standard_icon eq_refl E eq_refl Ht)).
Defined.

Lemma addVoxel_wraps_coordinates_witness :
  exists s1,
    addVoxel 1 2 3 7 init_state = Some (tt, s1)
    /\ map_get (1, 2, 3) (voxelMap s1) = Some 7.
Proof.
  apply (proj1 (addVoxel_wraps_coordinates init_state 1 2 3 7 7 0 0 0)); lia.
Defined.
